(** * Lifecycle of [QuantizedTorchEstimatorMixin]
    (src/concrete/ml/sklearn/base.py)

    The mixin wraps a skorch estimator: [fit] trains it and quantizes the
    trained network, [compile] builds the FHE circuit, [predict] runs either
    the delegate (clear) or the compiled circuit (FHE), and [fit_benchmark]
    also returns a floating point copy of the trained estimator.

    Python objects are mutable and shared by reference, so the embedding is
    over an explicit store of objects.  Methods are computations in a state
    and exception monad: an exception keeps the mutations performed before
    it was raised, as in Python. *)

From Stdlib Require Import ZArith Lia.
From stdpp Require Import base gmap strings list fin_maps.

Open Scope Z_scope.
Open Scope nat_scope.

(** ** Values owned by the external collaborators *)

(** The mixin never looks inside these: floating point scalars, labels, the
    trained network, hyperparameter values, the traced numpy model, the
    quantization parameters, the compiled circuit, the delegate's native
    predictions, the exceptions the collaborators raise, and the two
    compilation option objects. *)
Class Types := {
  scalar : Type;
  Labels : Type;
  FitParams : Type;
  no_fit_params : FitParams;
  Net : Type;
  Param : Type;
  NumpyModule : Type;
  QParams : Type;
  QLayers : Type;
  Circuit : Type;
  Preds : Type;
  DErr : Type;
  CompilationConfiguration : Type;
  CompilationArtifacts : Type
}.

Definition loc := positive.

Section Objects.
Context `{Types}.

(** numpy arrays of dimension one and two, as the methods receive them *)
Inductive ndarray :=
| Arr1 (v : list scalar)
| Arr2 (rows : list (list scalar)).

(** [X[0, ::]]: an [IndexError] on a one-dimensional or an empty array *)
Definition getitem_0 (X : ndarray) : option (list scalar) :=
  match X with
  | Arr1 _ => None
  | Arr2 rows => head rows
  end.

(** the keyword arguments of [compile], passed through to the compiler *)
Record CompileOpts := {
  compilation_configuration : option CompilationConfiguration;
  compilation_artifacts : option CompilationArtifacts;
  show_mlir : bool;
  use_virtual_lib : bool
}.

(** ** Objects of the store *)

(** [QuantizedArray]: raw values, their quantized image, and the parameters
    (scale, zero point, bit width) the image was computed with *)
Record QuantizedArray := {
  qa_params : QParams;
  values : ndarray;
  qvalues : list (list Z)
}.

(** [QuantizedModule]: the quantized inputs it was calibrated on (by
    reference), its quantized layers, and the circuit once compiled *)
Record QuantizedModule := {
  q_inputs : list loc;
  qm_layers : QLayers;
  forward_fhe : option Circuit
}.

(** The estimator that mixes the class in.  [base_estimator_type],
    [base_module_to_compile] and [n_bits_quant] are the abstract properties
    the child class supplies; [params] is what [get_params()] reports;
    [quantized_module_] is the attribute of the mixin. *)
Record Adapter := {
  base_estimator_type : string;
  base_module_to_compile : loc;
  n_bits_quant : nat;
  params : gmap string loc;
  quantized_module_ : option loc
}.

(** a plain estimator of class [est_type], as built by [klass(module, **params)] *)
Record Estimator := {
  est_type : string;
  est_module : loc;
  est_params : gmap string loc;
  est_initialized : bool
}.

(** [OParam] is a mutable hyperparameter value (a list, an object);
    [OAtom] is an atomic one (a number, a string, [None], a class, a
    function, a tuple of these), which Python never copies. *)
Inductive obj :=
| ONet (n : Net)
| OParam (p : Param)
| OQArray (a : QuantizedArray)
| OQModule (m : QuantizedModule)
| OAdapter (a : Adapter)
| OEstimator (e : Estimator)
| OAtom (v : Param).

(** every invocation of a collaborator, in program order *)
Inductive Call :=
| CallSuperFit (X : ndarray) (y : Labels) (fit_params : FitParams)
| CallNumpyModule (module : loc) (x0 : list scalar)
| CallQuantizeModule (n_bits : nat) (is_signed : bool) (X : ndarray)
| CallUpdateValues (q : loc) (X : ndarray)
| CallModuleCompile (qm inputset : loc) (opts : CompileOpts)
| CallQuantizeInput (x : list scalar)
| CallRun (q_x : list Z)
| CallSuperPredict (X : ndarray)
| CallGetParams
| CallKlass (klass : string) (module : loc) (kwargs : gmap string loc)
| CallInitialize (est : loc).

Record World := {
  heap : gmap loc obj;
  calls : list Call
}.

Inductive exn :=
| ValueError (msg : string)
| IndexError
| AttributeError
| TypeError
| Propagated (e : DErr).

Inductive result (A : Type) :=
| Ok (a : A)
| Raise (e : exn).
Global Arguments Ok {A} a.
Global Arguments Raise {A} e.

End Objects.

(** ** The collaborators *)

(** skorch training and prediction (which may read anything reachable from
    the estimator), the tracer, the post-training quantizer, the
    re-quantization of new values under fixed parameters, the compiler, the
    input quantizer of a module and the execution of a circuit. *)
Class Collaborators `{Types} := {
  train : gmap loc obj -> Adapter -> Net -> ndarray -> Labels -> FitParams ->
          Net * option DErr;
  delegate_predict : gmap loc obj -> Adapter -> ndarray -> DErr + Preds;
  trace : Net -> list scalar -> DErr + NumpyModule;
  quantize : nat -> NumpyModule -> bool -> ndarray ->
             DErr + (QLayers * list QuantizedArray);
  requantize : QParams -> ndarray -> list (list Z);
  compiler : QLayers -> QuantizedArray -> CompileOpts -> DErr + Circuit;
  quantize_input : QLayers -> list scalar -> list Z;
  run : Circuit -> list Z -> list Z
}.

Section Monad.
Context `{Collaborators}.

Definition M (A : Type) : Type := World -> result A * World.

Definition ret {A} (a : A) : M A := fun w => (Ok a, w).

Definition bind {A B} (m : M A) (k : A -> M B) : M B :=
  fun w =>
    match m w with
    | (Ok a, w') => k a w'
    | (Raise e, w') => (Raise e, w')
    end.

Definition raise {A} (e : exn) : M A := fun w => (Raise e, w).

Global Instance M_ret : MRet M := @ret.
Global Instance M_bind : MBind M := fun A B k m => bind m k.

(** the world after further collaborator invocations *)
Definition add_calls (w : World) (cs : list Call) : World :=
  {| heap := heap w; calls := calls w ++ cs |}.

Definition log (c : Call) : M unit := fun w => (Ok tt, add_calls w [c]).

Definition alloc (o : obj) : M loc :=
  fun w =>
    let l := fresh (dom (heap w)) in
    (Ok l, {| heap := <[l := o]> (heap w); calls := calls w |}).

Definition load (l : loc) : M obj :=
  fun w =>
    match heap w !! l with
    | Some o => (Ok o, w)
    | None => (Raise AttributeError, w)
    end.

Definition store (l : loc) (o : obj) : M unit :=
  fun w => (Ok tt, {| heap := <[l := o]> (heap w); calls := calls w |}).

Definition get_heap : M (gmap loc obj) := fun w => (Ok (heap w), w).

Definition load_adapter (l : loc) : M Adapter :=
  o ← load l; match o with OAdapter a => mret a | _ => raise AttributeError end.

Definition load_module (l : loc) : M QuantizedModule :=
  o ← load l; match o with OQModule m => mret m | _ => raise AttributeError end.

Definition load_array (l : loc) : M QuantizedArray :=
  o ← load l; match o with OQArray a => mret a | _ => raise AttributeError end.

Definition load_net (l : loc) : M Net :=
  o ← load l; match o with ONet n => mret n | _ => raise AttributeError end.

Definition load_estimator (l : loc) : M Estimator :=
  o ← load l; match o with OEstimator e => mret e | _ => raise AttributeError end.

(** [for x in xs: acc = body(x, acc)] *)
Fixpoint for_each {A S} (xs : list A) (acc : S) (body : A -> S -> M S) : M S :=
  match xs with
  | [] => mret acc
  | x :: xs' => acc' ← body x acc; for_each xs' acc' body
  end.

End Monad.

(** ** numpy helpers used by [predict] *)

(** storing into an [np.int32] array wraps modulo [2^32] *)
Definition int32 (z : Z) : Z := ((z + 2 ^ 31) mod 2 ^ 32 - 2 ^ 31)%Z.

(** [np.zeros((n,), np.int32)] *)
Definition zeros (n : nat) : list Z := replicate n 0%Z.

(** scan of [argmax]: [best] at index [best_i] is the largest value seen so
    far, [i] is the index of the head of [l]; a later value wins only when
    strictly larger, so the first maximum is returned *)
Fixpoint argmax_from (best_i : nat) (best : Z) (i : nat) (l : list Z) : nat :=
  match l with
  | [] => best_i
  | v :: l' =>
      if (best <? v)%Z then argmax_from i v (S i) l'
      else argmax_from best_i best (S i) l'
  end.

(** [out.argmax(axis=1)] on a [(1, k)] array; numpy refuses an empty one *)
Definition argmax (out : list Z) : option nat :=
  match out with
  | [] => None
  | v :: l => Some (argmax_from 0 v 1 l)
  end.

(** [i] is the position of the first largest entry of [out] *)
Definition is_argmax (out : list Z) (i : nat) : Prop :=
  exists v, out !! i = Some v /\
    (forall j w, out !! j = Some w -> (w <= v)%Z) /\
    (forall j w, out !! j = Some w -> j < i -> (w < v)%Z).

(** [enumerate(xs)] counting from [start] *)
Fixpoint enumerate_from {A} (start : nat) (xs : list A) : list (nat * A) :=
  match xs with
  | [] => []
  | x :: xs' => (start, x) :: enumerate_from (S start) xs'
  end.

Definition enumerate {A} (xs : list A) : list (nat * A) := enumerate_from 0 xs.

(** [[xs[i] for i in idxs]]: the rows of a batch in another order *)
Definition reorder {A} (idxs : list nat) (xs : list A) : list A :=
  omap (fun i => xs !! i) idxs.

Section Estimator.
Context `{Collaborators}.

(** ** Attributes of [self] *)

Definition with_quantized_module_ (a : Adapter) (q : option loc) : Adapter :=
  {| base_estimator_type := base_estimator_type a;
     base_module_to_compile := base_module_to_compile a;
     n_bits_quant := n_bits_quant a;
     params := params a;
     quantized_module_ := q |}.

(** [self.quantized_module_] *)
Definition get_quantized_module_ (self : loc) : M (option loc) :=
  a ← load_adapter self; mret (quantized_module_ a).

(** [self.quantized_module_ = q] *)
Definition set_quantized_module_ (self : loc) (q : option loc) : M unit :=
  a ← load_adapter self; store self (OAdapter (with_quantized_module_ a q)).

(** [self.quantized_module_.<attr>]: the module object behind the attribute;
    an attribute of [None] is an [AttributeError] *)
Definition the_quantized_module (self : loc) : M (loc * QuantizedModule) :=
  q ← get_quantized_module_ self;
  match q with
  | None => raise AttributeError
  | Some l => m ← load_module l; mret (l, m)
  end.

(** [__init__]: after the constructor of the delegate has run, the
    estimator has no quantized module *)
Definition init (klass : string) (module : loc) (n_bits : nat)
    (kwargs : gmap string loc) : M loc :=
  alloc (OAdapter {| base_estimator_type := klass;
                     base_module_to_compile := module;
                     n_bits_quant := n_bits;
                     params := kwargs;
                     quantized_module_ := None |}).

(** ** Python's [deepcopy] *)

(** The deep copy of an atomic value is the value itself: [deepcopy(v) is v]
    for a number, a string, [None], a class, a function or a tuple of
    these.  Networks,
    mutable hyperparameter values and quantized arrays hold no reference to
    another object of the store, so their deep copy is one new object with
    the same content.  The mixin copies nothing else. *)
Definition deepcopy (l : loc) : M loc :=
  o ← load l;
  match o with
  | OAtom _ => mret l
  | ONet _ | OParam _ | OQArray _ => alloc o
  | _ => raise TypeError
  end.

(** ** The delegate (skorch) *)

(** [super().fit(X, y, **fit_params)]: trains the network of the estimator
    in place; when training raises, what it did to the network stays *)
Definition super_fit (self : loc) (X : ndarray) (y : Labels)
    (fit_params : FitParams) : M unit :=
  log (CallSuperFit X y fit_params) ;;
  a ← load_adapter self;
  n ← load_net (base_module_to_compile a);
  h ← get_heap;
  let '(n', err) := train h a n X y fit_params in
  store (base_module_to_compile a) (ONet n') ;;
  match err with
  | Some e => raise (Propagated e)
  | None => mret tt
  end.

(** [super().predict(X)] *)
Definition super_predict (self : loc) (X : ndarray) : M Preds :=
  log (CallSuperPredict X) ;;
  a ← load_adapter self;
  h ← get_heap;
  match delegate_predict h a X with
  | inl e => raise (Propagated e)
  | inr p => mret p
  end.

(** [self.get_params()]: sklearn builds a new dict on each call, whose
    values are the estimator's own parameter objects *)
Definition get_params (self : loc) : M (gmap string loc) :=
  log CallGetParams ;;
  a ← load_adapter self; mret (params a).

(** [klass(module, **kwargs)]: sklearn estimators keep their constructor
    arguments as they are given *)
Definition construct (klass : string) (module : loc)
    (kwargs : gmap string loc) : M loc :=
  log (CallKlass klass module kwargs) ;;
  alloc (OEstimator {| est_type := klass; est_module := module;
                       est_params := kwargs; est_initialized := false |}).

(** [est.initialize()]: marks the estimator as trained, without training *)
Definition initialize (est : loc) : M unit :=
  log (CallInitialize est) ;;
  e ← load_estimator est;
  store est (OEstimator {| est_type := est_type e; est_module := est_module e;
                           est_params := est_params e;
                           est_initialized := true |}).

End Estimator.

(** ** The quantization package (concrete.ml.quantization, concrete.ml.torch) *)

Section Quantization.
Context `{Collaborators}.

(** Modelled from the spec: the constructor of [NumpyModule], missing from
    the sources, is the floating-point tracer, constructed from a network
    and one representative input row; its errors surface unchanged. *)
Definition NumpyModule_init (module : loc) (x0 : list scalar) : M NumpyModule :=
  log (CallNumpyModule module x0) ;;
  n ← load_net module;
  match trace n x0 with
  | inl e => raise (Propagated e)
  | inr nm => mret nm
  end.

(** [PostTrainingAffineQuantization(n_bits, numpy_model, is_signed=...)] *)
Record PostTrainingAffineQuantization := {
  ptq_n_bits : nat;
  ptq_numpy_model : NumpyModule;
  ptq_is_signed : bool
}.

(** one more quantized input of the module under construction *)
Definition store_array (a : QuantizedArray) (ls : list loc) : M (list loc) :=
  l ← alloc (OQArray a); mret (ls ++ [l]).

(** Modelled from the spec: [quantize_module], missing from the sources, is
    the quantization routine; given calibration data it produces the
    Calibrated Module, which holds the quantization parameters, the
    quantization input set, and no Compiled Circuit (that one is set only
    by a successful compile). *)
Definition quantize_module (ptq : PostTrainingAffineQuantization)
    (X : ndarray) : M loc :=
  log (CallQuantizeModule (ptq_n_bits ptq) (ptq_is_signed ptq) X) ;;
  match quantize (ptq_n_bits ptq) (ptq_numpy_model ptq) (ptq_is_signed ptq) X with
  | inl e => raise (Propagated e)
  | inr (layers, arrays) =>
      ls ← for_each arrays [] store_array;
      alloc (OQModule {| q_inputs := ls; qm_layers := layers;
                         forward_fhe := None |})
  end.

(** Modelled from the spec: [update_values], missing from the sources,
    refreshes the contents of a quantization input set in place while
    keeping its derived parameters. *)
Definition update_values (q : loc) (X : ndarray) : M unit :=
  log (CallUpdateValues q X) ;;
  a ← load_array q;
  store q (OQArray {| qa_params := qa_params a; values := X;
                      qvalues := requantize (qa_params a) X |}).

(** Modelled from the spec: [QuantizedModule.compile], missing from the
    sources, hands the quantized input set and the options to the compiler
    and attaches the Compiled Circuit to the module on success; the module
    is otherwise unchanged, and compiler errors propagate unchanged. *)
Definition module_compile (qm inputset : loc) (opts : CompileOpts) : M unit :=
  log (CallModuleCompile qm inputset opts) ;;
  m ← load_module qm;
  a ← load_array inputset;
  match compiler (qm_layers m) a opts with
  | inl e => raise (Propagated e)
  | inr c => store qm (OQModule {| q_inputs := q_inputs m;
                                   qm_layers := qm_layers m;
                                   forward_fhe := Some c |})
  end.

(** Modelled from the spec: [is_compiled], missing from the sources, tells
    whether the module has a Compiled Circuit. *)
Definition is_compiled (m : QuantizedModule) : bool :=
  match forward_fhe m with Some _ => true | None => false end.

(** Modelled from the spec: [quantize_input], missing from the sources,
    maps a raw row into the circuit's integer domain with the module's
    parameters. *)
Definition module_quantize_input (m : QuantizedModule) (x : list scalar)
  : M (list Z) :=
  log (CallQuantizeInput x) ;;
  mret (quantize_input (qm_layers m) x).

(** Modelled from the spec: [forward_fhe.run], missing from the sources, is
    the executable entry point of the Compiled Circuit, from a quantized
    row to the raw output vector. *)
Definition forward_fhe_run (m : QuantizedModule) (q_x : list Z) : M (list Z) :=
  match forward_fhe m with
  | None => raise AttributeError
  | Some c => log (CallRun q_x) ;; mret (run c q_x)
  end.

End Quantization.

(** ** The methods of the mixin *)

Section Mixin.
Context `{Collaborators}.

(** the messages of the two [ValueError]s *)
Definition msg_fit_first : string :=
  "The classifier needs to be calibrated before compilation, please call .fit() first!".

Definition msg_compile_first : string :=
  "The classifier is not yet compiled to FHE, please call .compile() first".

(** Both errors of the mixin are [ValueError]s, told apart by their
    message: the one raised on an estimator that was never fit, and the one
    raised on an estimator that is fit but not compiled. *)
Definition NotCalibratedError : exn := ValueError msg_fit_first.
Definition NotCompiledError : exn := ValueError msg_compile_first.

(** [get_params_for_benchmark] *)
Definition get_params_for_benchmark (self : loc) : M (gmap string loc) :=
  get_params self.

(** [compile] *)
Definition compile (self : loc) (X : ndarray) (opts : CompileOpts) : M unit :=
  q ← get_quantized_module_ self;
  match q with
  | None => raise (ValueError msg_fit_first)
  | Some _ =>
      '(qm, m) ← the_quantized_module self;
      match q_inputs m !! 0 with
      | None => raise IndexError
      | Some q0 =>
          quantized_numpy_inputset ← deepcopy q0;
          update_values quantized_numpy_inputset X ;;
          '(qm, _) ← the_quantized_module self;
          module_compile qm quantized_numpy_inputset opts
      end
  end.

(** [fit] *)
Definition fit (self : loc) (X : ndarray) (y : Labels)
    (fit_params : FitParams) : M loc :=
  set_quantized_module_ self None ;;
  super_fit self X y fit_params ;;
  a ← load_adapter self;
  match getitem_0 X with
  | None => raise IndexError
  | Some x0 =>
      numpy_model ← NumpyModule_init (base_module_to_compile a) x0;
      a ← load_adapter self;
      let n_bits := n_bits_quant a in
      let post_training_quant :=
        {| ptq_n_bits := n_bits; ptq_numpy_model := numpy_model;
           ptq_is_signed := true |} in
      qm ← quantize_module post_training_quant X;
      set_quantized_module_ self (Some qm) ;;
      mret self
  end.

(** what [predict] returns: the [np.int32] vector of the FHE path, or
    whatever the delegate returns *)
Inductive Prediction :=
| FheLabels (y_pred : list Z)
| Native (p : Preds).

(** the body of the loop of [predict], for the row [x] at index [idx] *)
Definition predict_row (self : loc) (row : nat * list scalar)
    (y_pred : list Z) : M (list Z) :=
  let '(idx, x) := row in
  '(_, m) ← the_quantized_module self;
  q_x ← module_quantize_input m x;
  '(_, m) ← the_quantized_module self;
  out ← forward_fhe_run m q_x;
  match argmax out with
  | None => raise (ValueError "attempt to get argmax of an empty sequence")
  | Some k => mret (<[idx := int32 (Z.of_nat k)]> y_pred)
  end.

(** [predict] *)
Definition predict (self : loc) (X : ndarray) (execute_in_fhe : bool)
  : M Prediction :=
  if execute_in_fhe then
    q ← get_quantized_module_ self;
    match q with
    | None => raise (ValueError msg_fit_first)
    | Some _ =>
        '(_, m) ← the_quantized_module self;
        if negb (is_compiled m) then raise (ValueError msg_compile_first)
        else
          let X := match X with Arr1 v => [v] | Arr2 rows => rows end in
          y_pred ← for_each (enumerate X) (zeros (length X)) (predict_row self);
          mret (FheLabels y_pred)
    end
  else
    p ← super_predict self X; mret (Native p).

(** the body of the loop of [fit_benchmark]:
    [new_object_params[name] = deepcopy(param)] *)
Definition copy_param (item : string * loc) (new_object_params : gmap string loc)
  : M (gmap string loc) :=
  let '(name, param) := item in
  c ← deepcopy param; mret (<[name := c]> new_object_params).

(** [fit_benchmark] *)
Definition fit_benchmark (self : loc) (X : ndarray) (y : Labels)
  : M (loc * loc) :=
  fit self X y no_fit_params ;;
  new_object_params ← get_params_for_benchmark self;
  new_object_params ←
    for_each (map_to_list new_object_params) new_object_params copy_param;
  a ← load_adapter self;
  let klass := base_estimator_type a in
  module_copy ← deepcopy (base_module_to_compile a);
  let new_object_params :=
    if decide (is_Some (new_object_params !! "module"))
    then delete "module" new_object_params
    else new_object_params in
  fp32_model ← construct klass module_copy new_object_params;
  initialize fp32_model ;;
  mret (self, fp32_model).

End Mixin.

(** ** A small instance of the collaborators *)

(** Scalars and networks are integers; training adds one to the weight and
    refuses an empty label vector; the circuit returns its quantized input
    as the score vector. *)
Module Toy.

Definition T : Types := {|
  scalar := Z; Labels := list Z; FitParams := unit; no_fit_params := tt;
  Net := Z; Param := Z; NumpyModule := Z; QParams := Z; QLayers := Z;
  Circuit := Z; Preds := list Z; DErr := string;
  CompilationConfiguration := unit; CompilationArtifacts := unit |}.

#[local] Existing Instance T.

Definition C : @Collaborators T := {|
  train := fun _ _ (n : @Net T) _ (y : @Labels T) _ =>
    match y with
    | [] => (n, Some "no labels")
    | _ => ((n + 1)%Z, None)
    end;
  delegate_predict := fun _ _ X =>
    match X with
    | Arr1 _ => inl "expected a batch"
    | Arr2 rows => inr (map (fun _ => 0%Z) rows)
    end;
  trace := fun n _ => inr n;
  quantize := fun n_bits nm _ X =>
    inr (nm, [ {| qa_params := Z.of_nat n_bits; values := X; qvalues := [] |} ]);
  requantize := fun p X =>
    match X with Arr1 v => [v] | Arr2 rows => rows end;
  compiler := fun layers _ _ => inr layers;
  quantize_input := fun _ x => x;
  run := fun _ q_x => q_x
|}.

#[local] Existing Instance C.

Definition opts : CompileOpts :=
  {| compilation_configuration := None; compilation_artifacts := None;
     show_mlir := false; use_virtual_lib := false |}.

Definition X_train : ndarray := Arr2 [[1; 2]; [4; 3]; [0; 0]]%Z.
Definition y_train : list Z := [1; 0; 0]%Z.

(** a store with a network at [1] and a hyperparameter at [2] *)
Definition w_empty : World :=
  {| heap := {[ 1%positive := ONet 5%Z; 2%positive := OParam 7%Z ]};
     calls := [] |}.

(** the estimator, at [3]: never fit, then fit, then compiled *)
Definition self : loc := 3%positive.

Definition w_untrained : World :=
  snd (init "NeuralNetClassifier" 1%positive 3
         {[ "module" := 1%positive; "lr" := 2%positive ]} w_empty).

Definition w_calibrated : World :=
  snd (fit self X_train y_train tt w_untrained).

Definition w_compiled : World :=
  snd (compile self X_train opts w_calibrated).

(** the estimator as it is constructed, its quantized module after [fit]
    and after [compile], and the first quantized input of that module *)
Definition a_untrained : Adapter :=
  {| base_estimator_type := "NeuralNetClassifier";
     base_module_to_compile := 1%positive;
     n_bits_quant := 3;
     params := {[ "module" := 1%positive; "lr" := 2%positive ]};
     quantized_module_ := None |}.

Definition m_calibrated : QuantizedModule :=
  {| q_inputs := [4%positive]; qm_layers := 6%Z; forward_fhe := None |}.

Definition m_compiled : QuantizedModule :=
  {| q_inputs := [4%positive]; qm_layers := 6%Z; forward_fhe := Some 6%Z |}.

Definition arr_calibrated : QuantizedArray :=
  {| qa_params := 3%Z; values := X_train; qvalues := [] |}.

(** the compiled estimator after a second [fit] *)
Definition w_refit : World :=
  snd (fit self X_train y_train tt w_compiled).

End Toy.

(** The same instance with a compiler that refuses a one-dimensional input
    set, and a store whose quantized module has no quantized input. *)
Module ToyStrict.

#[local] Existing Instance Toy.T.

Definition C : @Collaborators Toy.T := {|
  train := @train Toy.T Toy.C;
  delegate_predict := @delegate_predict Toy.T Toy.C;
  trace := @trace Toy.T Toy.C;
  quantize := @quantize Toy.T Toy.C;
  requantize := @requantize Toy.T Toy.C;
  compiler := fun layers a _ =>
    match values a with
    | Arr1 _ => inl "expected a batch"
    | Arr2 _ => inr layers
    end;
  quantize_input := @quantize_input Toy.T Toy.C;
  run := @run Toy.T Toy.C
|}.

#[local] Existing Instance C.

Definition w_calibrated : World :=
  snd (fit Toy.self Toy.X_train Toy.y_train tt Toy.w_untrained).

Definition w_compiled : World :=
  snd (compile Toy.self Toy.X_train Toy.opts w_calibrated).

Definition m_no_input : QuantizedModule :=
  {| q_inputs := []; qm_layers := 6%Z; forward_fhe := None |}.

Definition w_no_input : World :=
  {| heap := {[ 1%positive := ONet 6%Z;
                3%positive := OAdapter (with_quantized_module_ Toy.a_untrained
                                          (Some 5%positive));
                5%positive := OQModule m_no_input ]};
     calls := [] |}.

End ToyStrict.

(** The same instance on a store where the estimator, at [3], has an atomic
    hyperparameter (the learning rate, a number, at [2]) and a mutable one
    (the list of callbacks, at [4]). *)
Module ToyAtoms.

#[local] Existing Instance Toy.T.
#[local] Existing Instance Toy.C.

Definition a_untrained : Adapter :=
  {| base_estimator_type := "NeuralNetClassifier";
     base_module_to_compile := 1%positive;
     n_bits_quant := 3;
     params := {[ "module" := 1%positive; "lr" := 2%positive;
                  "callbacks" := 4%positive ]};
     quantized_module_ := None |}.

Definition w_untrained : World :=
  {| heap := {[ 1%positive := ONet 5%Z; 2%positive := OAtom 7%Z;
                3%positive := OAdapter a_untrained;
                4%positive := OParam 9%Z ]};
     calls := [] |}.

Definition arr_calibrated : QuantizedArray :=
  {| qa_params := 3%Z; values := Toy.X_train; qvalues := [] |}.

End ToyAtoms.

(** ** Lifecycle states *)

Section States.
Context `{Collaborators}.

(** [self] is an estimator whose quantized module is the object [m] at [q] *)
Definition has_module (w : World) (self q : loc) (m : QuantizedModule) : Prop :=
  exists a, heap w !! self = Some (OAdapter a) /\
            quantized_module_ a = Some q /\
            heap w !! q = Some (OQModule m).

(** never fit, or fit again and not yet quantized: no quantized module *)
Definition Untrained (w : World) (self : loc) : Prop :=
  exists a, heap w !! self = Some (OAdapter a) /\ quantized_module_ a = None.

(** fit, not compiled *)
Definition Calibrated (w : World) (self : loc) : Prop :=
  exists q m, has_module w self q m /\ forward_fhe m = None.

(** fit and compiled *)
Definition Compiled (w : World) (self : loc) : Prop :=
  exists q m c, has_module w self q m /\ forward_fhe m = Some c.

(** the class label the FHE path computes for one row *)
Definition fhe_label (m : QuantizedModule) (c : Circuit)
    (x : list scalar) : Z :=
  int32 (Z.of_nat (default 0 (argmax (run c (quantize_input (qm_layers m) x))))).

(** the collaborator invocations of the FHE path on one row *)
Definition fhe_calls (m : QuantizedModule) (x : list scalar)
  : list Call :=
  [CallQuantizeInput x; CallRun (quantize_input (qm_layers m) x)].

(** *** Stores and worlds the statements speak of *)

(** allocation of a sequence of objects, as a function of the store *)
Fixpoint alloc_all (os : list obj) (h : gmap loc obj)
  : list loc * gmap loc obj :=
  match os with
  | [] => ([], h)
  | o :: os' =>
      let l := fresh (dom h) in
      let '(ls, h') := alloc_all os' (<[l := o]> h) in
      (l :: ls, h')
  end.

(** the store after [self.quantized_module_ = None] and the training of
    the network to [n'] *)
Definition trained_heap (h : gmap loc obj) (self : loc) (a : Adapter)
    (n' : Net) : gmap loc obj :=
  <[base_module_to_compile a := ONet n']>
    (<[self := OAdapter (with_quantized_module_ a None)]> h).

(** the module [fit] installs, and the world it leaves *)
Definition calibrated_module (ls : list loc) (layers : QLayers)
  : QuantizedModule :=
  {| q_inputs := ls; qm_layers := layers; forward_fhe := None |}.

Definition fit_calls (a : Adapter) (X : ndarray) (y : Labels)
    (fit_params : FitParams) (x0 : list scalar) : list Call :=
  [CallSuperFit X y fit_params;
   CallNumpyModule (base_module_to_compile a) x0;
   CallQuantizeModule (n_bits_quant a) true X].

(** a quantized array after [update_values(X)] *)
Definition refreshed (arr : QuantizedArray) (X : ndarray) : QuantizedArray :=
  {| qa_params := qa_params arr; values := X;
     qvalues := requantize (qa_params arr) X |}.

(** a module with the circuit [c] attached *)
Definition with_forward_fhe (m : QuantizedModule) (c : Circuit)
  : QuantizedModule :=
  {| q_inputs := q_inputs m; qm_layers := qm_layers m; forward_fhe := Some c |}.

(** the objects [deepcopy] accepts *)
Definition copyable (o : obj) : Prop :=
  match o with
  | ONet _ | OParam _ | OQArray _ | OAtom _ => True
  | _ => False
  end.

(** the atomic values, which [deepcopy] returns as they are *)
Definition is_atom (o : obj) : bool :=
  match o with
  | OAtom _ => true
  | _ => false
  end.

(** the deep copies of a sequence of objects, as a function of the store:
    an atomic value is its own copy, any other object gets a new one *)
Fixpoint copy_all (ls : list loc) (h : gmap loc obj)
  : list loc * gmap loc obj :=
  match ls with
  | [] => ([], h)
  | l :: ls' =>
      match h !! l with
      | Some (OAtom _) | None =>
          let '(cs, h') := copy_all ls' h in (l :: cs, h')
      | Some o =>
          let c := fresh (dom h) in
          let '(cs, h') := copy_all ls' (<[c := o]> h) in (c :: cs, h')
      end
  end.

(** [d[k] = c] for each pair of the list, in order *)
Fixpoint insert_all (kcs : list (string * loc)) (d : gmap string loc)
  : gmap string loc :=
  match kcs with
  | [] => d
  | (k, c) :: kcs' => insert_all kcs' (<[k := c]> d)
  end.

(** the reference estimator [fit_benchmark] builds *)
Definition reference_estimator (a : Adapter) (module_copy : loc)
    (new_object_params : gmap string loc) : Estimator :=
  {| est_type := base_estimator_type a; est_module := module_copy;
     est_params := delete "module" new_object_params;
     est_initialized := true |}.

(** the objects the estimator at [est] is made of: itself, its network and
    its parameter values *)
Definition owned_by (h : gmap loc obj) (est : loc) (l : loc) : Prop :=
  l = est \/
  exists e, h !! est = Some (OEstimator e) /\
    (l = est_module e \/ exists k, est_params e !! k = Some l).

(** the objects reachable from the estimator [self] that mixes the class
    in: itself, its network, its parameter values, its quantized module and
    the quantized inputs of that module *)
Definition reachable_from (h : gmap loc obj) (self : loc) (l : loc) : Prop :=
  l = self \/
  exists a, h !! self = Some (OAdapter a) /\
    (l = base_module_to_compile a \/
     (exists k, params a !! k = Some l) \/
     exists q, quantized_module_ a = Some q /\
       (l = q \/ exists m, h !! q = Some (OQModule m) /\ l ∈ q_inputs m)).

(** later calls of [fit] and [compile] on the estimator *)
Inductive op :=
| OpFit (X : ndarray) (y : Labels) (fit_params : FitParams)
| OpCompile (X : ndarray) (opts : CompileOpts).

Definition run_op (self : loc) (w : World) (o : op) : World :=
  match o with
  | OpFit X y fit_params => (fit self X y fit_params w).2
  | OpCompile X opts => (compile self X opts w).2
  end.

Definition run_ops (self : loc) (os : list op) (w : World)
  : World :=
  foldl (run_op self) w os.

(** a computation that reads the store and calls collaborators, and writes
    nothing: on a given store it returns one result and adds one sequence
    of calls to the log, whatever the log was *)
Definition readonly {A} (m : M A) : Prop :=
  forall h, exists r cs, forall cs0,
    m {| heap := h; calls := cs0 |} = (r, {| heap := h; calls := cs0 ++ cs |}).

End States.

(** ** Running the primitives *)

Ltac mstep :=
  unfold mbind, M_bind, bind, mret, M_ret, ret, raise; cbv beta.

Section Basics.
Context `{Collaborators}.

Lemma load_adapter_eq w l a :
  heap w !! l = Some (OAdapter a) -> load_adapter l w = (Ok a, w).
Proof. intros E. unfold load_adapter, load. mstep. by rewrite E. Qed.

Lemma load_module_eq w l m :
  heap w !! l = Some (OQModule m) -> load_module l w = (Ok m, w).
Proof. intros E. unfold load_module, load. mstep. by rewrite E. Qed.

Lemma load_array_eq w l a :
  heap w !! l = Some (OQArray a) -> load_array l w = (Ok a, w).
Proof. intros E. unfold load_array, load. mstep. by rewrite E. Qed.

Lemma load_net_eq w l n :
  heap w !! l = Some (ONet n) -> load_net l w = (Ok n, w).
Proof. intros E. unfold load_net, load. mstep. by rewrite E. Qed.

Lemma load_estimator_eq w l e :
  heap w !! l = Some (OEstimator e) -> load_estimator l w = (Ok e, w).
Proof. intros E. unfold load_estimator, load. mstep. by rewrite E. Qed.

Lemma get_quantized_module_eq w self a :
  heap w !! self = Some (OAdapter a) ->
  get_quantized_module_ self w = (Ok (quantized_module_ a), w).
Proof.
  intros E. unfold get_quantized_module_. mstep.
  by rewrite (load_adapter_eq _ _ _ E).
Qed.

Lemma the_quantized_module_eq w self q m :
  has_module w self q m -> the_quantized_module self w = (Ok (q, m), w).
Proof.
  intros (a & Ha & Hq & Hm). unfold the_quantized_module. mstep.
  rewrite (get_quantized_module_eq _ _ _ Ha), Hq. mstep.
  by rewrite (load_module_eq _ _ _ Hm).
Qed.

Lemma has_module_add_calls w self q m cs :
  has_module w self q m -> has_module (add_calls w cs) self q m.
Proof. intros (a & ? & ? & ?). by exists a. Qed.

Lemma add_calls_nil w : add_calls w [] = w.
Proof. destruct w. unfold add_calls. simpl. by rewrite app_nil_r. Qed.

Lemma add_calls_app w cs1 cs2 :
  add_calls (add_calls w cs1) cs2 = add_calls w (cs1 ++ cs2).
Proof. unfold add_calls. simpl. by rewrite app_assoc. Qed.

(** the clear path is the delegate's [predict], whatever the state *)
Lemma predict_clear_eq w self a X :
  heap w !! self = Some (OAdapter a) ->
  predict self X false w =
    (match delegate_predict (heap w) a X with
     | inl e => Raise (Propagated e)
     | inr p => Ok (Native p)
     end, add_calls w [CallSuperPredict X]).
Proof.
  intros Ha. unfold predict, super_predict, log, get_heap. mstep.
  rewrite (load_adapter_eq (add_calls w [CallSuperPredict X]) self a Ha).
  simpl. by destruct (delegate_predict (heap w) a X).
Qed.

End Basics.

(** ** [argmax] *)

Lemma argmax_from_spec l : forall bi b i k,
  argmax_from bi b i l = k ->
  (k = bi /\ forall j w, l !! j = Some w -> (w <= b)%Z) \/
  (exists j v, k = i + j /\ l !! j = Some v /\ (b < v)%Z /\
     (forall j' w, l !! j' = Some w -> (w <= v)%Z) /\
     (forall j' w, l !! j' = Some w -> j' < j -> (w < v)%Z)).
Proof.
  induction l as [|x l IH]; intros bi b i k; simpl.
  - intros <-. left. split; [done|]. intros j w Hj. by rewrite lookup_nil in Hj.
  - destruct (Z.ltb_spec b x) as [Hbx | Hbx]; intros Hk.
    + right. destruct (IH _ _ _ _ Hk) as [[-> Hle] | (j & v & -> & Hj & Hv & Hle & Hlt)].
      * exists 0, x. repeat split; [lia | done | | lia].
        intros [|j'] w Hw; simpl in Hw; [injection Hw as <-; lia | eauto].
      * exists (S j), v. repeat split; [lia | done | lia | |].
        -- intros [|j'] w Hw; simpl in Hw; [injection Hw as <-; lia | eauto].
        -- intros [|j'] w Hw Hj'; simpl in Hw; [injection Hw as <-; lia|].
           apply (Hlt j' w Hw). lia.
    + destruct (IH _ _ _ _ Hk) as [[-> Hle] | (j & v & -> & Hj & Hv & Hle & Hlt)].
      * left. split; [done|].
        intros [|j'] w Hw; simpl in Hw; [injection Hw as <-; lia | eauto].
      * right. exists (S j), v. repeat split; [lia | done | lia | |].
        -- intros [|j'] w Hw; simpl in Hw; [injection Hw as <-; lia | eauto].
        -- intros [|j'] w Hw Hj'; simpl in Hw; [injection Hw as <-; lia|].
           apply (Hlt j' w Hw). lia.
Qed.

(** [argmax] returns the position of the first largest entry *)
Lemma argmax_spec out k : argmax out = Some k -> is_argmax out k.
Proof.
  destruct out as [|b l]; [done|]. simpl. intros [= Hk].
  destruct (argmax_from_spec _ _ _ _ _ Hk) as [[-> Hle] | (j & v & -> & Hj & Hv & Hle & Hlt)].
  - exists b. repeat split; [| lia].
    intros [|j'] w Hw; simpl in Hw; [injection Hw as <-; lia | eauto].
  - exists v. repeat split; [done | |].
    + intros [|j'] w Hw; simpl in Hw; [injection Hw as <-; lia | eauto].
    + intros [|j'] w Hw Hj'; simpl in Hw; [injection Hw as <-; lia|].
      apply (Hlt j' w Hw). lia.
Qed.

Lemma argmax_is_Some out : out <> [] -> is_Some (argmax out).
Proof. destruct out; [done|]. by eexists. Qed.

Lemma argmax_lt out k : argmax out = Some k -> k < length out.
Proof.
  intros Hk. destruct (argmax_spec _ _ Hk) as (v & Hv & _).
  by apply lookup_lt_Some in Hv.
Qed.

Lemma int32_small z : (- 2 ^ 31 <= z < 2 ^ 31)%Z -> int32 z = z.
Proof. intros Hz. unfold int32. rewrite Z.mod_small; lia. Qed.

Lemma int32_range z : (- 2 ^ 31 <= int32 z < 2 ^ 31)%Z.
Proof.
  unfold int32.
  pose proof (Z.mod_pos_bound (z + 2 ^ 31) (2 ^ 32) ltac:(lia)). lia.
Qed.

(** ** The FHE path of [predict] *)

Section FhePath.
Context `{Collaborators}.

Lemma predict_row_eq w self q m c idx x y_pred :
  has_module w self q m -> forward_fhe m = Some c ->
  run c (quantize_input (qm_layers m) x) <> [] ->
  predict_row self (idx, x) y_pred w =
    (Ok (<[idx := fhe_label m c x]> y_pred), add_calls w (fhe_calls m x)).
Proof.
  intros Hm Hc Hout. unfold predict_row. mstep.
  rewrite (the_quantized_module_eq _ _ _ _ Hm).
  unfold module_quantize_input, log. mstep.
  rewrite (the_quantized_module_eq _ _ _ _ (has_module_add_calls _ _ _ _ _ Hm)).
  unfold forward_fhe_run, log. rewrite Hc. mstep.
  rewrite add_calls_app. unfold fhe_label.
  destruct (argmax_is_Some _ Hout) as [k ->]. done.
Qed.

(** the loop writes the label of each row at the index of the row *)
Lemma predict_loop self q m c rows : forall i acc w,
  has_module w self q m -> forward_fhe m = Some c ->
  Forall (fun x => run c (quantize_input (qm_layers m) x) <> []) rows ->
  i + length rows <= length acc ->
  for_each (enumerate_from i rows) acc (predict_row self) w =
    (Ok (take i acc ++ map (fhe_label m c) rows ++ drop (i + length rows) acc),
     add_calls w (concat (map (fhe_calls m) rows))).
Proof.
  induction rows as [|x rows IH]; intros i acc w Hm Hc Hall Hlen;
    cbn [for_each enumerate_from map concat length].
  - mstep. rewrite add_calls_nil, Nat.add_0_r. simpl. by rewrite take_drop.
  - inversion Hall as [|? ? Hx Hrest]; subst. simpl in Hlen. mstep.
    rewrite (predict_row_eq _ _ _ _ _ _ _ _ Hm Hc Hx).
    rewrite IH; [| by apply has_module_add_calls | done | done
                 | rewrite length_insert; lia].
    rewrite add_calls_app. f_equal. f_equal.
    rewrite (take_S_r _ _ (fhe_label m c x))
      by (apply list_lookup_insert_eq; lia).
    rewrite take_insert_ge by lia.
    rewrite drop_insert_lt by lia.
    rewrite <- app_assoc. simpl.
    by replace (S (i + length rows)) with (i + S (length rows)) by lia.
Qed.

Lemma predict_fhe_eq w self q m c X :
  has_module w self q m -> forward_fhe m = Some c ->
  let rows := match X with Arr1 v => [v] | Arr2 rows => rows end in
  Forall (fun x => run c (quantize_input (qm_layers m) x) <> []) rows ->
  predict self X true w =
    (Ok (FheLabels (map (fhe_label m c) rows)),
     add_calls w (concat (map (fhe_calls m) rows))).
Proof.
  intros Hm Hc rows Hall. unfold predict. mstep.
  destruct (Hm) as (a & Ha & Hq & Hqm).
  rewrite (get_quantized_module_eq _ _ _ Ha), Hq.
  rewrite (the_quantized_module_eq _ _ _ _ Hm).
  unfold is_compiled. rewrite Hc. simpl. fold rows. unfold enumerate.
  rewrite (predict_loop self q m c rows 0 _ w Hm Hc Hall)
    by (unfold zeros; rewrite length_replicate; lia).
  simpl. unfold zeros. rewrite drop_ge by (rewrite length_replicate; lia).
  by rewrite app_nil_r.
Qed.

Lemma reorder_map {A B} (f : A -> B) idxs (xs : list A) :
  reorder idxs (map f xs) = map f (reorder idxs xs).
Proof.
  unfold reorder. change (map f xs) with (f <$> xs).
  induction idxs as [|i idxs IH]; [done|].
  cbn [omap list_omap]. rewrite list_lookup_fmap.
  destruct (xs !! i); simpl; by rewrite <- IH.
Qed.

Lemma reorder_elem_of {A} idxs (xs : list A) x :
  x ∈ reorder idxs xs -> x ∈ xs.
Proof.
  unfold reorder. intros (i & _ & Hx)%list_elem_of_omap.
  by apply list_elem_of_lookup_2 in Hx.
Qed.

End FhePath.

(** ** [fit] *)

Section Fit.
Context `{Collaborators}.

Lemma fresh_lookup (h : gmap loc obj) : h !! fresh (dom h) = None.
Proof. apply not_elem_of_dom, is_fresh. Qed.

Lemma alloc_all_spec os : forall h ls h',
  alloc_all os h = (ls, h') ->
  (forall l o, h !! l = Some o -> h' !! l = Some o) /\
  Forall2 (fun l o => h' !! l = Some o) ls os /\
  Forall (fun l => h !! l = None) ls /\
  (forall l, h' !! l = None -> h !! l = None).
Proof.
  induction os as [|o os IH]; intros h ls h'; simpl.
  - intros [= <- <-]. done.
  - destruct (alloc_all os (<[fresh (dom h) := o]> h)) as [ls1 h1] eqn:E.
    intros [= <- <-].
    destruct (IH _ _ _ E) as (Hkeep & Hnew & Hfresh & Hnone).
    pose proof (fresh_lookup h) as Hf.
    split; [|split; [|split]].
    + intros l o' Hl. apply Hkeep. rewrite lookup_insert_ne; [done|].
      intros <-. congruence.
    + constructor; [|done]. apply Hkeep. by rewrite lookup_insert_eq.
    + constructor; [done|]. eapply Forall_impl; [exact Hfresh|].
      intros l Hl. simpl in Hl.
      destruct (decide (fresh (dom h) = l)) as [<- | Hne]; [done|].
      by rewrite lookup_insert_ne in Hl.
    + intros l Hl. apply Hnone in Hl.
      destruct (decide (fresh (dom h) = l)) as [<- | Hne]; [done|].
      by rewrite lookup_insert_ne in Hl.
Qed.

Lemma store_array_eq a ls w :
  store_array a ls w =
    (Ok (ls ++ [fresh (dom (heap w))]),
     {| heap := <[fresh (dom (heap w)) := OQArray a]> (heap w);
        calls := calls w |}).
Proof. done. Qed.

(** the loop of [quantize_module] that stores the quantized inputs *)
Lemma alloc_arrays_eq arrays : forall ls0 w,
  for_each arrays ls0 store_array w =
    (Ok (ls0 ++ (alloc_all (OQArray <$> arrays) (heap w)).1),
     {| heap := (alloc_all (OQArray <$> arrays) (heap w)).2; calls := calls w |}).
Proof.
  induction arrays as [|a arrays IH]; intros ls0 w; cbn [for_each].
  - mstep. simpl. rewrite app_nil_r. by destruct w.
  - mstep. rewrite store_array_eq, IH. cbn [fmap list_fmap alloc_all heap calls].
    destruct (alloc_all _ _) as [ls h']. simpl. by rewrite <- app_assoc.
Qed.

Lemma bind_eq {A B} (m : M A) (k : A -> M B) w a w1 :
  m w = (Ok a, w1) -> (m ≫= k) w = k a w1.
Proof. intros E. mstep. by rewrite E. Qed.

Lemma bind_raise {A B} (m : M A) (k : A -> M B) w e w1 :
  m w = (Raise e, w1) -> (m ≫= k) w = (Raise e, w1).
Proof. intros E. mstep. by rewrite E. Qed.

Lemma bind_inv {A B} (m : M A) (k : A -> M B) w r w' :
  (m ≫= k) w = (Ok r, w') ->
  exists a w1, m w = (Ok a, w1) /\ k a w1 = (Ok r, w').
Proof.
  mstep. destruct (m w) as [[a|e] w1]; [eauto | discriminate].
Qed.

Lemma load_inv w l o w1 :
  load l w = (Ok o, w1) -> w1 = w /\ heap w !! l = Some o.
Proof. unfold load. destruct (heap w !! l); intros [= <- <-]; done. Qed.

Lemma load_adapter_inv w l a w1 :
  load_adapter l w = (Ok a, w1) -> w1 = w /\ heap w !! l = Some (OAdapter a).
Proof.
  unfold load_adapter. intros (o & w2 & [-> Ho]%load_inv & Hk)%bind_inv.
  destruct o; try discriminate. by injection Hk as <- <-.
Qed.

Lemma load_net_inv w l n w1 :
  load_net l w = (Ok n, w1) -> w1 = w /\ heap w !! l = Some (ONet n).
Proof.
  unfold load_net. intros (o & w2 & [-> Ho]%load_inv & Hk)%bind_inv.
  destruct o; try discriminate. by injection Hk as <- <-.
Qed.

Lemma load_module_inv w l m w1 :
  load_module l w = (Ok m, w1) -> w1 = w /\ heap w !! l = Some (OQModule m).
Proof.
  unfold load_module. intros (o & w2 & [-> Ho]%load_inv & Hk)%bind_inv.
  destruct o; try discriminate. by injection Hk as <- <-.
Qed.

Lemma load_array_inv w l a w1 :
  load_array l w = (Ok a, w1) -> w1 = w /\ heap w !! l = Some (OQArray a).
Proof.
  unfold load_array. intros (o & w2 & [-> Ho]%load_inv & Hk)%bind_inv.
  destruct o; try discriminate. by injection Hk as <- <-.
Qed.

(** an estimator and its network are different objects *)
Lemma adapter_ne_net (h : gmap loc obj) self a l n :
  h !! self = Some (OAdapter a) -> h !! l = Some (ONet n) -> self <> l.
Proof. intros Ha Hn ->. congruence. Qed.

(** the first two statements of [fit], followed by [k] *)
Lemma fit_prefix_eq {B} (k : M B) w self a n X y fit_params :
  heap w !! self = Some (OAdapter a) ->
  heap w !! base_module_to_compile a = Some (ONet n) ->
  let a0 := with_quantized_module_ a None in
  let r := train (<[self := OAdapter a0]> (heap w)) a0 n X y fit_params in
  let w' := {| heap := trained_heap (heap w) self a r.1;
               calls := calls w ++ [CallSuperFit X y fit_params] |} in
  (set_quantized_module_ self None ;; super_fit self X y fit_params ;; k) w =
    match r.2 with
    | Some e => (Raise (Propagated e), w')
    | None => k w'
    end.
Proof.
  intros Ha Hn a0 r w'.
  pose proof (adapter_ne_net _ _ _ _ _ Ha Hn) as Hne.
  unfold set_quantized_module_.
  rewrite (bind_eq _ _ w tt {| heap := <[self := OAdapter a0]> (heap w);
                               calls := calls w |}).
  2:{ rewrite (bind_eq _ _ w a w) by by apply load_adapter_eq. done. }
  unfold super_fit, log. mstep.
  rewrite (load_adapter_eq _ self a0) by apply lookup_insert_eq.
  rewrite (load_net_eq _ _ n)
    by (simpl; rewrite lookup_insert_ne by done; exact Hn).
  unfold get_heap, store. simpl. fold a0. fold r. subst w'.
  destruct r as [n' [e|]]; done.
Qed.

Lemma fit_ok w self a n X y fit_params n' x0 nm layers arrays :
  heap w !! self = Some (OAdapter a) ->
  heap w !! base_module_to_compile a = Some (ONet n) ->
  train (<[self := OAdapter (with_quantized_module_ a None)]> (heap w))
        (with_quantized_module_ a None) n X y fit_params = (n', None) ->
  getitem_0 X = Some x0 ->
  trace n' x0 = inr nm ->
  quantize (n_bits_quant a) nm true X = inr (layers, arrays) ->
  let h2 := trained_heap (heap w) self a n' in
  let ls := (alloc_all (OQArray <$> arrays) h2).1 in
  let h3 := (alloc_all (OQArray <$> arrays) h2).2 in
  let q := fresh (dom h3) in
  fit self X y fit_params w =
    (Ok self,
     {| heap := <[self := OAdapter (with_quantized_module_ a (Some q))]>
                  (<[q := OQModule (calibrated_module ls layers)]> h3);
        calls := calls w ++ fit_calls a X y fit_params x0 |}).
Proof.
  intros Ha Hn Htrain Hx0 Htrace Hquant h2 ls h3 q.
  pose proof (adapter_ne_net _ _ _ _ _ Ha Hn) as Hne.
  unfold fit. rewrite (fit_prefix_eq _ w self a n) by done.
  rewrite Htrain. cbn [fst snd]. fold h2.
  assert (Hself : h2 !! self = Some (OAdapter (with_quantized_module_ a None))).
  { unfold h2, trained_heap. rewrite lookup_insert_ne by done.
    apply lookup_insert_eq. }
  mstep. erewrite load_adapter_eq by exact Hself.
  rewrite Hx0. unfold NumpyModule_init, log. mstep.
  rewrite (load_net_eq _ _ n') by apply lookup_insert_eq.
  rewrite Htrace.
  erewrite load_adapter_eq by exact Hself.
  unfold quantize_module, log. cbn [ptq_n_bits ptq_numpy_model ptq_is_signed
    n_bits_quant with_quantized_module_]. rewrite Hquant. mstep.
  rewrite alloc_arrays_eq. cbn [heap calls add_calls app]. fold ls h3.
  unfold alloc at 1. cbn [heap calls]. fold q.
  unfold set_quantized_module_. mstep.
  assert (Hfresh3 : h3 !! self = Some (OAdapter (with_quantized_module_ a None))).
  { destruct (alloc_all (OQArray <$> arrays) h2) as [ls' h3'] eqn:E.
    destruct (alloc_all_spec _ _ _ _ E) as (Hkeep & _). by apply Hkeep. }
  assert (Hq : q <> self).
  { intros Heq. pose proof (fresh_lookup h3) as Hf. fold q in Hf. congruence. }
  rewrite (load_adapter_eq _ self (with_quantized_module_ a None))
    by (simpl; rewrite lookup_insert_ne by done; exact Hfresh3).
  unfold store. simpl. unfold fit_calls.
  rewrite <- !app_assoc. done.
Qed.

(** what the world after a successful [fit] looks like *)
Lemma fit_ok_state w self a n X y fit_params n' x0 nm layers arrays :
  heap w !! self = Some (OAdapter a) ->
  heap w !! base_module_to_compile a = Some (ONet n) ->
  train (<[self := OAdapter (with_quantized_module_ a None)]> (heap w))
        (with_quantized_module_ a None) n X y fit_params = (n', None) ->
  getitem_0 X = Some x0 ->
  trace n' x0 = inr nm ->
  quantize (n_bits_quant a) nm true X = inr (layers, arrays) ->
  exists q ls w',
    fit self X y fit_params w = (Ok self, w') /\
    calls w' = calls w ++ fit_calls a X y fit_params x0 /\
    heap w' !! self = Some (OAdapter (with_quantized_module_ a (Some q))) /\
    heap w' !! q = Some (OQModule (calibrated_module ls layers)) /\
    Forall2 (fun l arr => heap w' !! l = Some (OQArray arr)) ls arrays /\
    heap w' !! base_module_to_compile a = Some (ONet n') /\
    heap w !! q = None /\
    Forall (fun l => heap w !! l = None) ls /\
    (forall l, l <> self -> l <> base_module_to_compile a ->
       forall o, heap w !! l = Some o -> heap w' !! l = Some o) /\
    (forall l, heap w' !! l = None -> heap w !! l = None).
Proof.
  intros Ha Hn Htrain Hx0 Htrace Hquant.
  pose proof (adapter_ne_net _ _ _ _ _ Ha Hn) as Hne.
  pose proof (fit_ok _ _ _ _ _ _ _ _ _ _ _ _ Ha Hn Htrain Hx0 Htrace Hquant)
    as Hfit. cbv zeta in Hfit.
  set (h2 := trained_heap (heap w) self a n') in *.
  destruct (alloc_all (OQArray <$> arrays) h2) as [ls h3] eqn:E.
  cbn [fst snd] in Hfit.
  destruct (alloc_all_spec _ _ _ _ E) as (Hkeep & Hnew & Hfresh & Hnone).
  pose proof (fresh_lookup h3) as Hq. set (q := fresh (dom h3)) in *.
  assert (Hh2 : forall l, h2 !! l = None -> heap w !! l = None).
  { intros l. unfold h2, trained_heap.
    destruct (decide (base_module_to_compile a = l)) as [<- | ?];
      [by rewrite lookup_insert_eq|]. rewrite lookup_insert_ne by done.
    destruct (decide (self = l)) as [<- | ?];
      [by rewrite lookup_insert_eq|]. by rewrite lookup_insert_ne. }
  assert (Hself2 : h2 !! self = Some (OAdapter (with_quantized_module_ a None))).
  { unfold h2, trained_heap. rewrite lookup_insert_ne by done.
    apply lookup_insert_eq. }
  assert (Hmod2 : h2 !! base_module_to_compile a = Some (ONet n')).
  { apply lookup_insert_eq. }
  assert (Hqself : q <> self).
  { intros Heq. apply Hkeep in Hself2. congruence. }
  assert (Hls : Forall (fun l => l <> self /\ l <> q) ls).
  { apply Forall_forall. intros l Hl. split; intros ->.
    - rewrite Forall_forall in Hfresh. specialize (Hfresh _ Hl). simpl in Hfresh.
      congruence.
    - apply list_elem_of_lookup in Hl as [i Hi].
      destruct (Forall2_lookup_l _ _ _ _ _ Hnew Hi) as (o & _ & Ho). congruence. }
  exists q, ls. eexists. split; [exact Hfit|]. cbn [heap calls].
  apply Forall2_fmap_r in Hnew.
  split; [done|]. split; [apply lookup_insert_eq|].
  split; [rewrite lookup_insert_ne by done; apply lookup_insert_eq|].
  split.
  { apply Forall2_same_length_lookup_2; [by eapply Forall2_length|].
    intros i l arr Hl Harr.
    pose proof (Forall2_lookup_lr _ _ _ _ _ _ Hnew Hl Harr) as Hlk.
    rewrite Forall_forall in Hls.
    destruct (Hls l) as [? ?]; [by eapply list_elem_of_lookup_2|].
    by rewrite !lookup_insert_ne by done. }
  split.
  { rewrite lookup_insert_ne by done.
    assert (q <> base_module_to_compile a).
    { intros Heq. apply Hkeep in Hmod2. congruence. }
    rewrite lookup_insert_ne by done. by apply Hkeep. }
  split; [by apply Hh2, Hnone|].
  split; [eapply Forall_impl; [exact Hfresh|]; intros l Hl; by apply Hh2|].
  split.
  - intros l Hl1 Hl2 o Ho. rewrite lookup_insert_ne by done.
    assert (h2 !! l = Some o) as Hl%Hkeep.
    { unfold h2, trained_heap. by rewrite !lookup_insert_ne by done. }
    rewrite lookup_insert_ne; [done|]. intros <-. congruence.
  - intros l Hl. apply Hh2, Hnone.
    destruct (decide (self = l)) as [<- | ?];
      [by rewrite lookup_insert_eq in Hl|]. rewrite lookup_insert_ne in Hl by done.
    destruct (decide (q = l)) as [<- | ?]; [done|].
    by rewrite lookup_insert_ne in Hl.
Qed.

(** a successful [fit] went through each of its steps *)
Lemma fit_inv w self X y fit_params r w' :
  fit self X y fit_params w = (Ok r, w') ->
  exists a n n' x0 nm layers arrays,
    heap w !! self = Some (OAdapter a) /\
    heap w !! base_module_to_compile a = Some (ONet n) /\
    train (<[self := OAdapter (with_quantized_module_ a None)]> (heap w))
          (with_quantized_module_ a None) n X y fit_params = (n', None) /\
    getitem_0 X = Some x0 /\
    trace n' x0 = inr nm /\
    quantize (n_bits_quant a) nm true X = inr (layers, arrays).
Proof.
  intros Hfit.
  assert (exists a, heap w !! self = Some (OAdapter a)) as [a Ha].
  { unfold fit, set_quantized_module_ in Hfit.
    apply bind_inv in Hfit as (? & ? & Hset & _).
    apply bind_inv in Hset as (a & ? & [_ Ha]%load_adapter_inv & _). eauto. }
  assert (exists n, heap w !! base_module_to_compile a = Some (ONet n)) as [n Hn].
  { unfold fit, set_quantized_module_ in Hfit.
    apply bind_inv in Hfit as (? & w1 & Hset & Hfit).
    rewrite (bind_eq _ _ _ _ _ (load_adapter_eq _ _ _ Ha)) in Hset.
    injection Hset as _ <-.
    apply bind_inv in Hfit as (? & w2 & Hsuper & _).
    unfold super_fit in Hsuper.
    apply bind_inv in Hsuper as (? & w3 & [= _ <-] & Hsuper).
    apply bind_inv in Hsuper as (a0 & ? & [-> Ha0]%load_adapter_inv & Hsuper).
    simpl in Ha0. rewrite lookup_insert_eq in Ha0. injection Ha0 as <-.
    apply bind_inv in Hsuper as (n & ? & [_ Hn]%load_net_inv & _).
    simpl in Hn. exists n.
    destruct (decide (self = base_module_to_compile a)) as [Heq | ?].
    - rewrite <- Heq, lookup_insert_eq in Hn. discriminate.
    - by rewrite lookup_insert_ne in Hn. }
  pose proof (adapter_ne_net _ _ _ _ _ Ha Hn) as Hne.
  unfold fit in Hfit. rewrite (fit_prefix_eq _ w self a n) in Hfit by done.
  destruct (train _ _ n X y fit_params) as [n' [e|]] eqn:Htrain;
    cbn [fst snd] in Hfit; [discriminate|].
  assert (Hself : trained_heap (heap w) self a n' !! self =
                  Some (OAdapter (with_quantized_module_ a None))).
  { unfold trained_heap. rewrite lookup_insert_ne by done.
    apply lookup_insert_eq. }
  rewrite (bind_eq _ _ _ _ _ (load_adapter_eq
    {| heap := trained_heap (heap w) self a n'; calls := _ |} _ _ Hself)) in Hfit.
  destruct (getitem_0 X) as [x0|] eqn:Hx0; [|discriminate].
  apply bind_inv in Hfit as (nm & w3 & Hnm & Hfit).
  unfold NumpyModule_init, log in Hnm. revert Hnm. mstep.
  rewrite (load_net_eq _ _ n') by apply lookup_insert_eq.
  destruct (trace n' x0) as [e | nm'] eqn:Htrace; [discriminate|].
  intros [= -> <-].
  rewrite (bind_eq _ _ _ _ _ (load_adapter_eq
    (add_calls {| heap := trained_heap (heap w) self a n'; calls := _ |} _)
    _ _ Hself)) in Hfit.
  apply bind_inv in Hfit as (qm & w4 & Hqm & _).
  unfold quantize_module, log in Hqm. revert Hqm. mstep.
  cbn [ptq_n_bits ptq_numpy_model ptq_is_signed n_bits_quant
       with_quantized_module_].
  destruct (quantize (n_bits_quant a) nm true X) as [e | [layers arrays]]
    eqn:Hquant; [discriminate|]. intros _.
  by exists a, n, n', x0, nm, layers, arrays.
Qed.

End Fit.

(** ** [compile] *)

Section Compile.
Context `{Collaborators}.

Lemma compile_eq w self q m q0 arr X opts :
  has_module w self q m ->
  q_inputs m !! 0 = Some q0 ->
  heap w !! q0 = Some (OQArray arr) ->
  let copy := fresh (dom (heap w)) in
  let h1 := <[copy := OQArray (refreshed arr X)]> (heap w) in
  let cs := [CallUpdateValues copy X; CallModuleCompile q copy opts] in
  compile self X opts w =
    match compiler (qm_layers m) (refreshed arr X) opts with
    | inl e => (Raise (Propagated e), {| heap := h1; calls := calls w ++ cs |})
    | inr c => (Ok tt, {| heap := <[q := OQModule (with_forward_fhe m c)]> h1;
                          calls := calls w ++ cs |})
    end.
Proof.
  intros Hm Hq0 Harr copy h1 cs.
  pose proof Hm as (a & Ha & Hq & Hqm).
  pose proof (fresh_lookup (heap w)) as Hfresh. fold copy in Hfresh.
  assert (copy <> self) by (intros ->; congruence).
  assert (copy <> q) by (intros ->; congruence).
  unfold compile. mstep.
  rewrite (get_quantized_module_eq _ _ _ Ha), Hq.
  rewrite (the_quantized_module_eq _ _ _ _ Hm), Hq0.
  unfold deepcopy, load. mstep. rewrite Harr. unfold alloc. cbn [heap calls].
  fold copy. unfold update_values, log. mstep.
  rewrite (load_array_eq _ copy arr) by apply lookup_insert_eq.
  unfold store. cbn [heap calls add_calls]. rewrite insert_insert_eq.
  fold (refreshed arr X). fold h1.
  assert (Hm1 : has_module {| heap := h1; calls := calls w ++ [CallUpdateValues copy X] |}
                  self q m).
  { exists a. unfold h1. cbn [heap]. by rewrite !lookup_insert_ne by done. }
  rewrite (the_quantized_module_eq _ _ _ _ Hm1).
  unfold module_compile, log. mstep.
  rewrite (load_module_eq _ q m)
    by (unfold h1; cbn [heap add_calls]; by rewrite lookup_insert_ne by done).
  rewrite (load_array_eq _ copy (refreshed arr X)) by apply lookup_insert_eq.
  unfold cs.
  destruct (compiler (qm_layers m) (refreshed arr X) opts);
    unfold store, add_calls; cbn [heap calls]; by rewrite <- app_assoc.
Qed.

(** a successful [compile] found a calibrated module and a quantized input
    set, and the compiler returned a circuit *)
Lemma compile_inv w self X opts w' :
  compile self X opts w = (Ok tt, w') ->
  exists q m q0 arr c,
    has_module w self q m /\
    q_inputs m !! 0 = Some q0 /\
    heap w !! q0 = Some (OQArray arr) /\
    compiler (qm_layers m) (refreshed arr X) opts = inr c.
Proof.
  intros Hc. pose proof Hc as Hc0. unfold compile in Hc.
  apply bind_inv in Hc as (oq & w1 & Hoq & Hc).
  unfold get_quantized_module_ in Hoq.
  apply bind_inv in Hoq as (a & ? & [-> Ha]%load_adapter_inv & [= <- <-]).
  destruct (quantized_module_ a) as [q|] eqn:Hq; [|discriminate].
  apply bind_inv in Hc as ([q' m'] & w2 & Hthe & Hc).
  unfold the_quantized_module in Hthe.
  rewrite (bind_eq _ _ _ _ _ (get_quantized_module_eq _ _ _ Ha)), Hq in Hthe.
  apply bind_inv in Hthe as (m & ? & [-> Hqm]%load_module_inv & [= <- <- <-]).
  assert (Hm : has_module w self q m) by by exists a.
  destruct (q_inputs m !! 0) as [q0|] eqn:Hq0; [|discriminate].
  exists q, m, q0.
  destruct (heap w !! q0) as [o|] eqn:Ho.
  - destruct o as [n | p | arr | | | |];
      try (exfalso; revert Hc; unfold deepcopy, load; mstep; rewrite Ho;
           discriminate).
    + exfalso. revert Hc. unfold deepcopy, load, alloc, update_values, log. mstep.
      rewrite Ho. unfold load_array, load. mstep. cbn [heap add_calls].
      rewrite lookup_insert_eq. discriminate.
    + exfalso. revert Hc. unfold deepcopy, load, alloc, update_values, log. mstep.
      rewrite Ho. unfold load_array, load. mstep. cbn [heap add_calls].
      rewrite lookup_insert_eq. discriminate.
    + exists arr.
      pose proof (compile_eq w self q m q0 arr X opts Hm Hq0 Ho) as Heq.
      cbv zeta in Heq.
      destruct (compiler (qm_layers m) (refreshed arr X) opts) as [e | c] eqn:Hcomp.
      * rewrite Heq in Hc0. discriminate.
      * by exists c.
    + exfalso. revert Hc. unfold deepcopy, load, update_values, log. mstep.
      rewrite Ho. unfold load_array, load. mstep. cbn [heap add_calls].
      rewrite Ho. discriminate.
  - exfalso. revert Hc. unfold deepcopy, load. mstep. rewrite Ho. discriminate.
Qed.

End Compile.

(** ** [fit_benchmark] *)

Section Benchmark.
Context `{Collaborators}.

Lemma deepcopy_eq w l o :
  heap w !! l = Some o -> copyable o -> is_atom o = false ->
  deepcopy l w =
    (Ok (fresh (dom (heap w))),
     {| heap := <[fresh (dom (heap w)) := o]> (heap w); calls := calls w |}).
Proof.
  intros Hl Hc Hatom. unfold deepcopy, load. mstep. rewrite Hl.
  by destruct o.
Qed.

Lemma deepcopy_atom_eq w l v :
  heap w !! l = Some (OAtom v) -> deepcopy l w = (Ok l, w).
Proof. intros Hl. unfold deepcopy, load. mstep. by rewrite Hl. Qed.

Lemma copy_param_eq w k l d o :
  heap w !! l = Some o -> copyable o -> is_atom o = false ->
  copy_param (k, l) d w =
    (Ok (<[k := fresh (dom (heap w))]> d),
     {| heap := <[fresh (dom (heap w)) := o]> (heap w); calls := calls w |}).
Proof.
  intros Hl Hc Hatom. unfold copy_param. mstep.
  by rewrite (deepcopy_eq _ _ _ Hl Hc Hatom).
Qed.

Lemma copy_param_atom_eq w k l d v :
  heap w !! l = Some (OAtom v) ->
  copy_param (k, l) d w = (Ok (<[k := l]> d), w).
Proof.
  intros Hl. unfold copy_param. mstep. by rewrite (deepcopy_atom_eq _ _ _ Hl).
Qed.

(** the loop of [fit_benchmark] replaces each parameter by its deep copy *)
Lemma copy_params_eq kvs : forall d w,
  Forall (fun kv => exists o, heap w !! kv.2 = Some o /\ copyable o) kvs ->
  for_each kvs d copy_param w =
    (Ok (insert_all (zip kvs.*1 (copy_all kvs.*2 (heap w)).1) d),
     {| heap := (copy_all kvs.*2 (heap w)).2; calls := calls w |}).
Proof.
  induction kvs as [|[k l] kvs IH]; intros d w Hall.
  - simpl. mstep. by destruct w.
  - apply Forall_cons in Hall as [(o & Hl & Hc) Hall]. simpl in Hl.
    cbn [for_each fmap list_fmap copy_all snd]. mstep. rewrite Hl.
    destruct (is_atom o) eqn:Hatom.
    + destruct o; try discriminate.
      rewrite (copy_param_atom_eq _ _ _ _ _ Hl), (IH _ _ Hall).
      destruct (copy_all _ _) as [cs h']. done.
    + rewrite (copy_param_eq _ _ _ _ _ Hl Hc Hatom).
      rewrite IH; cbn [heap calls].
      * destruct o; try discriminate;
          by destruct (copy_all _ _) as [cs h'].
      * eapply Forall_impl; [exact Hall|]. intros [k' l'] (o' & Hl' & Hc').
        exists o'. split; [|done]. simpl in *. rewrite lookup_insert_ne; [done|].
        intros <-. pose proof (fresh_lookup (heap w)). congruence.
Qed.

(** what [copy_all] does to the store: nothing that existed changes; the
    copy of an atomic value is the value, the copy of any other object is a
    new object with the same content *)
Lemma copy_all_spec ls : forall h cs h',
  Forall (fun l => is_Some (h !! l)) ls ->
  copy_all ls h = (cs, h') ->
  (forall l o, h !! l = Some o -> h' !! l = Some o) /\
  (forall l, h' !! l = None -> h !! l = None) /\
  Forall2 (fun l c => exists o, h !! l = Some o /\ h' !! c = Some o /\
             if is_atom o then c = l else h !! c = None) ls cs.
Proof.
  induction ls as [|l ls IH]; intros h cs h' Hall; cbn [copy_all].
  - intros [= <- <-]. done.
  - apply Forall_cons in Hall as [[o Hl] Hall]. rewrite Hl.
    pose proof (fresh_lookup h) as Hf.
    assert (Hatom : forall v, o = OAtom v ->
      (let '(cs0, h0) := copy_all ls h in (l :: cs0, h0)) = (cs, h') ->
      (forall l0 o0, h !! l0 = Some o0 -> h' !! l0 = Some o0) /\
      (forall l0, h' !! l0 = None -> h !! l0 = None) /\
      Forall2 (fun l0 c => exists o0, h !! l0 = Some o0 /\ h' !! c = Some o0 /\
                 if is_atom o0 then c = l0 else h !! c = None) (l :: ls) cs).
    { intros v -> Heq. destruct (copy_all ls h) as [cs0 h0] eqn:E.
      injection Heq as <- <-.
      destruct (IH _ _ _ Hall E) as (Hkeep & Hnone & Hcs).
      split; [done|]. split; [done|]. constructor; [|done].
      exists (OAtom v). split; [done|]. split; [by apply Hkeep | done]. }
    assert (Hnew : is_atom o = false ->
      (let '(cs0, h0) := copy_all ls (<[fresh (dom h) := o]> h) in
       (fresh (dom h) :: cs0, h0)) = (cs, h') ->
      (forall l0 o0, h !! l0 = Some o0 -> h' !! l0 = Some o0) /\
      (forall l0, h' !! l0 = None -> h !! l0 = None) /\
      Forall2 (fun l0 c => exists o0, h !! l0 = Some o0 /\ h' !! c = Some o0 /\
                 if is_atom o0 then c = l0 else h !! c = None) (l :: ls) cs).
    { intros Hna Heq.
      destruct (copy_all ls (<[fresh (dom h) := o]> h)) as [cs0 h0] eqn:E.
      injection Heq as <- <-.
      assert (Hall1 : Forall (fun l0 => is_Some (<[fresh (dom h) := o]> h !! l0)) ls).
      { eapply Forall_impl; [exact Hall|]. intros l0 [o0 Hl0]. exists o0.
        rewrite lookup_insert_ne; [done|]. intros <-. congruence. }
      destruct (IH _ _ _ Hall1 E) as (Hkeep & Hnone & Hcs).
      split; [|split].
      - intros l0 o0 Hl0. apply Hkeep. rewrite lookup_insert_ne; [done|].
        intros <-. congruence.
      - intros l0 Hl0. apply Hnone in Hl0.
        destruct (decide (fresh (dom h) = l0)) as [<- | Hne]; [done|].
        by rewrite lookup_insert_ne in Hl0.
      - constructor.
        + exists o. split; [done|]. split; [|by rewrite Hna].
          apply Hkeep, lookup_insert_eq.
        + apply Forall2_same_length_lookup. split; [by eapply Forall2_length|].
          intros i l0 c0 Hli Hci.
          destruct (Forall2_lookup_lr _ _ _ _ _ _ Hcs Hli Hci)
            as (o0 & Hl0 & Hc0 & Hkind).
          assert (is_Some (h !! l0)) as [o1 Ho1].
          { rewrite Forall_forall in Hall. apply Hall.
            by eapply list_elem_of_lookup_2. }
          assert (fresh (dom h) <> l0) by (intros <-; congruence).
          rewrite lookup_insert_ne in Hl0 by done.
          exists o0. split; [done|]. split; [done|].
          destruct (is_atom o0); [done|].
          destruct (decide (fresh (dom h) = c0)) as [<- | Hne]; [done|].
          by rewrite lookup_insert_ne in Hkind. }
    destruct o; eauto.
Qed.

Lemma insert_all_lookup kcs : forall d k c,
  insert_all kcs d !! k = Some c ->
  (k, c) ∈ kcs \/ ((k ∉ kcs.*1) /\ d !! k = Some c).
Proof.
  induction kcs as [|[k' c'] kcs IH]; intros d k c; simpl.
  - intros Hd. right. split; [apply not_elem_of_nil | done].
  - intros [Hin | [Hnin Hd]]%IH.
    + left. by right.
    + destruct (decide (k' = k)) as [-> | Hne].
      * rewrite lookup_insert_eq in Hd. injection Hd as ->. left. by left.
      * rewrite lookup_insert_ne in Hd by done. right. split; [|done].
        rewrite not_elem_of_cons. done.
Qed.

Lemma fit_benchmark_eq w self X y r w1 a1 n' :
  fit self X y no_fit_params w = (Ok r, w1) ->
  heap w1 !! self = Some (OAdapter a1) ->
  heap w1 !! base_module_to_compile a1 = Some (ONet n') ->
  Forall (fun kv => exists o, heap w1 !! kv.2 = Some o /\ copyable o)
         (map_to_list (params a1)) ->
  let kvs := map_to_list (params a1) in
  let ls := (copy_all kvs.*2 (heap w1)).1 in
  let h2 := (copy_all kvs.*2 (heap w1)).2 in
  let d := insert_all (zip kvs.*1 ls) (params a1) in
  let module_copy := fresh (dom h2) in
  let h3 := <[module_copy := ONet n']> h2 in
  let fp32_model := fresh (dom h3) in
  fit_benchmark self X y w =
    (Ok (self, fp32_model),
     {| heap := <[fp32_model :=
                   OEstimator (reference_estimator a1 module_copy d)]> h3;
        calls := calls w1 ++
          [CallGetParams;
           CallKlass (base_estimator_type a1) module_copy (delete "module" d);
           CallInitialize fp32_model] |}).
Proof.
  intros Hfit Ha Hn Hos kvs ls h2 d module_copy h3 fp32_model.
  unfold fit_benchmark. rewrite (bind_eq _ _ _ _ _ Hfit).
  unfold get_params_for_benchmark, get_params, log. mstep.
  rewrite (load_adapter_eq (add_calls w1 [CallGetParams]) self a1 Ha).
  rewrite (copy_params_eq _ _ (add_calls w1 [CallGetParams]) Hos).
  cbn [heap calls add_calls]. fold kvs ls h2 d.
  assert (Hin : Forall (fun l => is_Some (heap w1 !! l)) kvs.*2).
  { apply Forall_fmap. eapply Forall_impl; [exact Hos|].
    intros kv (o & Ho & _). by exists o. }
  destruct (copy_all kvs.*2 (heap w1)) as [ls' h2'] eqn:E.
  destruct (copy_all_spec _ _ _ _ Hin E) as (Hkeep & _).
  cbn [fst snd] in ls, h2. subst ls h2.
  rewrite (load_adapter_eq {| heap := h2'; calls := _ |} self a1)
    by (by apply Hkeep).
  rewrite (deepcopy_eq {| heap := h2'; calls := _ |} _ (ONet n'))
    by (by try apply Hkeep).
  cbn [heap calls]. fold module_copy. fold h3.
  unfold construct, log, alloc. mstep. cbn [heap calls add_calls].
  fold fp32_model. unfold initialize, log. mstep.
  rewrite (load_estimator_eq _ fp32_model _)
    by (cbn [heap add_calls]; apply lookup_insert_eq).
  unfold store. cbn [heap calls add_calls est_type est_module est_params].
  rewrite insert_insert_eq. unfold reference_estimator.
  assert (Hdel : (if decide (is_Some (d !! "module"))
                  then delete "module" d else d) = delete "module" d).
  { case_decide as Hd; [done|]. symmetry. apply delete_id.
    by apply eq_None_not_Some. }
  rewrite Hdel. rewrite <- !app_assoc. done.
Qed.

End Benchmark.

(** ** What later calls on the estimator leave alone *)

Section Frames.
Context `{Collaborators}.

(** a failing [fit] stops after the training, with no quantized module *)
Lemma fit_failure_heap w self a n X y fit_params e w' :
  heap w !! self = Some (OAdapter a) ->
  heap w !! base_module_to_compile a = Some (ONet n) ->
  fit self X y fit_params w = (Raise e, w') ->
  heap w' =
    trained_heap (heap w) self a
      (train (<[self := OAdapter (with_quantized_module_ a None)]> (heap w))
             (with_quantized_module_ a None) n X y fit_params).1.
Proof.
  intros Ha Hn Hfit. pose proof Hfit as Hfit0.
  pose proof (adapter_ne_net _ _ _ _ _ Ha Hn) as Hne.
  unfold fit in Hfit. rewrite (fit_prefix_eq _ w self a n) in Hfit by done.
  destruct (train _ _ n X y fit_params) as [n' [e'|]] eqn:Htrain;
    cbn [fst snd] in *; [by injection Hfit as _ <-|].
  assert (Hself : trained_heap (heap w) self a n' !! self =
                  Some (OAdapter (with_quantized_module_ a None))).
  { unfold trained_heap. rewrite lookup_insert_ne by done.
    apply lookup_insert_eq. }
  rewrite (bind_eq _ _ _ _ _ (load_adapter_eq
    {| heap := trained_heap (heap w) self a n'; calls := _ |} _ _ Hself)) in Hfit.
  destruct (getitem_0 X) as [x0|] eqn:Hx0; [|by injection Hfit as _ <-].
  revert Hfit. unfold NumpyModule_init, log. mstep.
  rewrite (load_net_eq _ _ n') by apply lookup_insert_eq.
  destruct (trace n' x0) as [e' | nm] eqn:Htrace; [by intros [= _ <-]|].
  erewrite load_adapter_eq by exact Hself.
  unfold quantize_module, log. mstep.
  cbn [ptq_n_bits ptq_numpy_model ptq_is_signed n_bits_quant
       with_quantized_module_].
  destruct (quantize (n_bits_quant a) nm true X) as [e' | [layers arrays]]
    eqn:Hquant; [by intros [= _ <-]|].
  intros _. exfalso.
  rewrite (fit_ok _ _ _ _ _ _ _ _ _ _ _ _ Ha Hn Htrain Hx0 Htrace Hquant)
    in Hfit0. discriminate.
Qed.

(** [fit] writes to the estimator and to its network, and to new objects *)
Lemma fit_keeps w self a n X y fit_params l o :
  heap w !! self = Some (OAdapter a) ->
  heap w !! base_module_to_compile a = Some (ONet n) ->
  l <> self -> l <> base_module_to_compile a ->
  heap w !! l = Some o ->
  heap (fit self X y fit_params w).2 !! l = Some o.
Proof.
  intros Ha Hn Hl1 Hl2 Hl.
  destruct (fit self X y fit_params w) as [[r | e] w'] eqn:Hfit; cbn [snd].
  - destruct (fit_inv _ _ _ _ _ _ _ Hfit)
      as (a' & n0 & n' & x0 & nm & layers & arrays & Ha' & Hn' & Ht & Hx & Htr & Hq).
    assert (a' = a) as -> by congruence.
    destruct (fit_ok_state _ _ _ _ _ _ _ _ _ _ _ _ Ha' Hn' Ht Hx Htr Hq)
      as (q & ls & w2 & Hfit2 & _ & _ & _ & _ & _ & _ & _ & Hkeep & _).
    rewrite Hfit in Hfit2. injection Hfit2 as _ <-. by apply Hkeep.
  - rewrite (fit_failure_heap _ _ _ _ _ _ _ _ _ Ha Hn Hfit).
    unfold trained_heap. by rewrite !lookup_insert_ne by done.
Qed.

(** after [fit], successful or not, the estimator is still an estimator
    with the same network object, parameters and class *)
Lemma fit_adapter w self a n X y fit_params :
  heap w !! self = Some (OAdapter a) ->
  heap w !! base_module_to_compile a = Some (ONet n) ->
  exists oq n',
    heap (fit self X y fit_params w).2 !! self =
      Some (OAdapter (with_quantized_module_ a oq)) /\
    heap (fit self X y fit_params w).2 !! base_module_to_compile a =
      Some (ONet n').
Proof.
  intros Ha Hn. pose proof (adapter_ne_net _ _ _ _ _ Ha Hn) as Hne.
  destruct (fit self X y fit_params w) as [[r | e] w'] eqn:Hfit; cbn [snd].
  - destruct (fit_inv _ _ _ _ _ _ _ Hfit)
      as (a' & n0 & n' & x0 & nm & layers & arrays & Ha' & Hn' & Ht & Hx & Htr & Hq).
    assert (a' = a) as -> by congruence.
    destruct (fit_ok_state _ _ _ _ _ _ _ _ _ _ _ _ Ha' Hn' Ht Hx Htr Hq)
      as (q & ls & w2 & Hfit2 & _ & Hs & _ & _ & Hm & _).
    rewrite Hfit in Hfit2. injection Hfit2 as _ <-. eauto.
  - rewrite (fit_failure_heap _ _ _ _ _ _ _ _ _ Ha Hn Hfit).
    eexists None, _. unfold trained_heap. split.
    + rewrite lookup_insert_ne by done. apply lookup_insert_eq.
    + apply lookup_insert_eq.
Qed.

(** [compile] writes to the quantized module, and to new objects *)
Lemma compile_keeps w self X opts l o :
  heap w !! l = Some o ->
  (forall m, o <> OQModule m) ->
  heap (compile self X opts w).2 !! l = Some o.
Proof.
  intros Hl Hkind.
  assert (Hfresh : fresh (dom (heap w)) <> l).
  { intros <-. pose proof (fresh_lookup (heap w)). congruence. }
  unfold compile, get_quantized_module_, load_adapter, load. mstep.
  destruct (heap w !! self) as [[| | | |a| |]|] eqn:Ha; try done.
  destruct (quantized_module_ a) as [q|] eqn:Hq; [|done].
  unfold the_quantized_module, get_quantized_module_, load_adapter,
    load_module, load. mstep. rewrite Ha, Hq.
  destruct (heap w !! q) as [[| | |m| | |]|] eqn:Hm; try done.
  destruct (q_inputs m !! 0) as [q0|] eqn:Hq0; [|done].
  destruct (heap w !! q0) as [o0|] eqn:Ho0.
  - destruct o0 as [n | p | arr | | | | v].
    + unfold deepcopy, load, alloc, update_values, load_array, load, log.
      mstep. rewrite Ho0. cbn [heap add_calls]. rewrite lookup_insert_eq.
      cbn [snd heap add_calls]. by rewrite lookup_insert_ne.
    + unfold deepcopy, load, alloc, update_values, load_array, load, log.
      mstep. rewrite Ho0. cbn [heap add_calls]. rewrite lookup_insert_eq.
      cbn [snd heap add_calls]. by rewrite lookup_insert_ne.
    + assert (Hhm : has_module w self q m) by by exists a.
      pose proof (compile_eq w self q m q0 arr X opts Hhm Hq0 Ho0) as Heq.
      cbv zeta in Heq. revert Heq.
      unfold compile, get_quantized_module_, load_adapter, load. mstep.
      rewrite Ha, Hq.
      unfold the_quantized_module, get_quantized_module_, load_adapter,
        load_module, load. mstep. rewrite Ha, Hq, Hm, Hq0.
      intros ->.
      destruct (compiler (qm_layers m) (refreshed arr X) opts); cbn [snd heap].
      * by rewrite lookup_insert_ne.
      * rewrite lookup_insert_ne; [by rewrite lookup_insert_ne|].
        intros <-. rewrite Hm in Hl. injection Hl as <-. by eapply Hkind.
    + unfold deepcopy, load. mstep. by rewrite Ho0.
    + unfold deepcopy, load. mstep. by rewrite Ho0.
    + unfold deepcopy, load. mstep. by rewrite Ho0.
    + unfold deepcopy, load, update_values, load_array, load, log.
      mstep. rewrite Ho0. cbn [heap add_calls]. by rewrite Ho0.
  - unfold deepcopy, load. mstep. by rewrite Ho0.
Qed.

End Frames.

(** ** States reached by [fit] and [compile] *)

Section Transitions.
Context `{Collaborators}.

Lemma predict_fhe_calibrated w self X :
  Calibrated w self -> predict self X true w = (Raise NotCompiledError, w).
Proof.
  intros (q & m & Hm & Hc). pose proof Hm as (a & Ha & Hq & _).
  unfold predict. mstep.
  rewrite (get_quantized_module_eq _ _ _ Ha), Hq.
  rewrite (the_quantized_module_eq _ _ _ _ Hm).
  unfold is_compiled. by rewrite Hc.
Qed.

(** a row of the FHE loop fails with an [AttributeError] or with numpy's
    complaint about an empty array, nothing else *)
Lemma predict_row_raise self row acc w e w' :
  predict_row self row acc w = (Raise e, w') ->
  e = AttributeError \/
  e = ValueError "attempt to get argmax of an empty sequence".
Proof.
  destruct row as [idx x].
  unfold predict_row, the_quantized_module, get_quantized_module_,
    load_adapter, load_module, load, module_quantize_input, forward_fhe_run,
    log. mstep. cbn [heap add_calls].
  intros Hrow.
  repeat (let E := fresh "E" in
          destruct (_ : option _) eqn:E in Hrow || destruct (_ : obj) in Hrow);
    mstep; cbn in Hrow; simplify_eq; auto.
Qed.

Lemma predict_loop_raise self rows : forall i acc w e w',
  for_each (enumerate_from i rows) acc (predict_row self) w = (Raise e, w') ->
  e <> NotCompiledError.
Proof.
  induction rows as [|x rows IH]; intros i acc w e w';
    cbn [for_each enumerate_from]; [discriminate|].
  mstep. destruct (predict_row self (i, x) acc w) as [[acc' | e'] w1] eqn:Hrow.
  - apply IH.
  - intros [= <- <-]. by destruct (predict_row_raise _ _ _ _ _ _ Hrow) as [-> | ->].
Qed.

(** on a compiled estimator the FHE path does not complain that the
    estimator is not compiled *)
Lemma predict_fhe_compiled w self X :
  Compiled w self -> (predict self X true w).1 <> Raise NotCompiledError.
Proof.
  intros (q & m & c & Hm & Hc). pose proof Hm as (a & Ha & Hq & _).
  unfold predict. mstep.
  rewrite (get_quantized_module_eq _ _ _ Ha), Hq.
  rewrite (the_quantized_module_eq _ _ _ _ Hm).
  unfold is_compiled. rewrite Hc. cbn [negb]. unfold enumerate.
  destruct (for_each _ _ _ w) as [[y | e] w1] eqn:Hloop; [done|].
  cbn [fst]. intros [= ->]. by eapply predict_loop_raise.
Qed.

(** a newly constructed estimator was never fit *)
Lemma init_Untrained klass module n_bits kwargs w :
  Untrained (init klass module n_bits kwargs w).2
            (fresh (dom (heap w))) /\
  (init klass module n_bits kwargs w).1 = Ok (fresh (dom (heap w))).
Proof.
  split; [|done]. eexists. split; [apply lookup_insert_eq | done].
Qed.

(** the world after a successful [compile] *)
Lemma compile_ok_state w self X opts w' :
  compile self X opts w = (Ok tt, w') ->
  exists q m q0 arr c copy,
    has_module w self q m /\
    q_inputs m !! 0 = Some q0 /\
    heap w !! q0 = Some (OQArray arr) /\
    compiler (qm_layers m) (refreshed arr X) opts = inr c /\
    heap w !! copy = None /\
    heap w' = <[q := OQModule (with_forward_fhe m c)]>
                (<[copy := OQArray (refreshed arr X)]> (heap w)) /\
    calls w' = calls w ++ [CallUpdateValues copy X; CallModuleCompile q copy opts] /\
    has_module w' self q (with_forward_fhe m c).
Proof.
  intros Hc.
  destruct (compile_inv _ _ _ _ _ Hc) as (q & m & q0 & arr & c & Hm & Hq0 & Harr & Hcomp).
  pose proof (compile_eq w self q m q0 arr X opts Hm Hq0 Harr) as Heq.
  cbv zeta in Heq. rewrite Hcomp, Hc in Heq. injection Heq as ->.
  pose proof (fresh_lookup (heap w)) as Hfresh.
  exists q, m, q0, arr, c, (fresh (dom (heap w))). cbn [heap calls].
  repeat split; try done.
  destruct Hm as (a & Ha & Hq & Hqm). exists a. cbn [heap].
  assert (q <> self) by (intros ->; congruence).
  assert (fresh (dom (heap w)) <> self) by (intros Heq; congruence).
  split; [by rewrite !lookup_insert_ne by done|]. split; [done|].
  apply lookup_insert_eq.
Qed.

(** [fit] leaves a calibrated estimator, [compile] a compiled one *)
Lemma fit_Calibrated w self X y fit_params r w' :
  fit self X y fit_params w = (Ok r, w') -> r = self /\ Calibrated w' self.
Proof.
  intros Hfit.
  destruct (fit_inv _ _ _ _ _ _ _ Hfit)
    as (a & n & n' & x0 & nm & layers & arrays & Ha & Hn & Ht & Hx & Htr & Hq).
  destruct (fit_ok_state _ _ _ _ _ _ _ _ _ _ _ _ Ha Hn Ht Hx Htr Hq)
    as (q & ls & w2 & Hfit2 & _ & Hs & Hm & _).
  rewrite Hfit in Hfit2. injection Hfit2 as -> <-. split; [done|].
  exists q, (calibrated_module ls layers). split; [|done].
  by exists (with_quantized_module_ a (Some q)).
Qed.

Lemma compile_Compiled w self X opts w' :
  compile self X opts w = (Ok tt, w') -> Compiled w' self.
Proof.
  intros Hc.
  destruct (compile_ok_state _ _ _ _ _ Hc)
    as (q & m & q0 & arr & c & copy & _ & _ & _ & _ & _ & _ & _ & Hm).
  by exists q, (with_forward_fhe m c), c.
Qed.

End Transitions.

(** ** What the reference estimator and the estimator share *)

Section Separation.
Context `{Collaborators}.

Lemma copyable_not_module o : copyable o -> forall m, o <> OQModule m.
Proof. by destruct o. Qed.

Lemma Forall_exists_Forall2 {A B} (P : A -> B -> Prop) l :
  Forall (fun x => exists y, P x y) l -> exists k, Forall2 P l k.
Proof.
  induction 1 as [|x l [y Hy] _ [k Hk]].
  - exists []. constructor.
  - exists (y :: k). by constructor.
Qed.

(** objects that are not the estimator, not its network and not a
    quantized module survive any sequence of [fit] and [compile] *)
Lemma run_ops_keep self ops : forall w a n l o,
  heap w !! self = Some (OAdapter a) ->
  heap w !! base_module_to_compile a = Some (ONet n) ->
  l <> self -> l <> base_module_to_compile a ->
  heap w !! l = Some o -> (forall m, o <> OQModule m) ->
  heap (run_ops self ops w) !! l = Some o.
Proof.
  induction ops as [|[X y fit_params | X opts] ops IH];
    intros w a n l o Ha Hn Hl1 Hl2 Hl Hkind; [done| |];
    unfold run_ops; cbn [foldl run_op]; fold (run_ops self ops).
  - destruct (fit_adapter w self a n X y fit_params Ha Hn) as (oq & n1 & Ha1 & Hn1).
    eapply (IH _ (with_quantized_module_ a oq)); eauto.
    by eapply fit_keeps.
  - eapply (IH _ a n); eauto.
    + by apply compile_keeps.
    + by apply compile_keeps.
    + by apply compile_keeps.
Qed.

End Separation.

Section Clone.
Context `{Collaborators}.

Lemma insert_all_dom kcs : forall (d : gmap string loc) k,
  is_Some (insert_all kcs d !! k) <-> k ∈ kcs.*1 \/ is_Some (d !! k).
Proof.
  induction kcs as [|[k' c'] kcs IH]; intros d k; simpl.
  - rewrite elem_of_nil. tauto.
  - rewrite IH, elem_of_cons, lookup_insert_is_Some.
    destruct (decide (k' = k)) as [-> | Hne]; [tauto|].
    split; [intros [? | [? | [_ ?]]] | intros [[? | ?] | ?]]; auto; congruence.
Qed.

(** the world after the second half of [fit_benchmark], in terms of the
    world [w1] that [fit] left *)
Lemma clone_state w self X y r w1 a1 n' :
  fit self X y no_fit_params w = (Ok r, w1) ->
  heap w1 !! self = Some (OAdapter a1) ->
  heap w1 !! base_module_to_compile a1 = Some (ONet n') ->
  (forall k l, params a1 !! k = Some l ->
     exists o, heap w1 !! l = Some o /\ copyable o) ->
  exists fp e w2,
    fit_benchmark self X y w = (Ok (self, fp), w2) /\
    heap w2 !! fp = Some (OEstimator e) /\
    est_type e = base_estimator_type a1 /\
    est_initialized e = true /\
    calls w2 = calls w1 ++
      [CallGetParams; CallKlass (est_type e) (est_module e) (est_params e);
       CallInitialize fp] /\
    (forall l o, heap w1 !! l = Some o -> heap w2 !! l = Some o) /\
    heap w1 !! fp = None /\
    heap w1 !! est_module e = None /\
    heap w2 !! est_module e = Some (ONet n') /\
    est_params e !! "module" = None /\
    (forall k, k <> "module" ->
       (is_Some (est_params e !! k) <-> is_Some (params a1 !! k))) /\
    (forall k c, est_params e !! k = Some c ->
       exists l o, params a1 !! k = Some l /\ heap w1 !! l = Some o /\
                   heap w2 !! c = Some o /\ copyable o /\
                   if is_atom o then c = l else heap w1 !! c = None).
Proof.
  intros Hfit Ha Hn Hparams.
  set (kvs := map_to_list (params a1)).
  assert (Hos : Forall (fun kv => exists o, heap w1 !! kv.2 = Some o /\ copyable o)
                       kvs).
  { apply Forall_forall. intros [k l] Hkl.
    apply elem_of_map_to_list in Hkl. by apply (Hparams k). }
  assert (Hin : Forall (fun l => is_Some (heap w1 !! l)) kvs.*2).
  { apply Forall_fmap. eapply Forall_impl; [exact Hos|].
    intros kv (o & Ho & _). by exists o. }
  pose proof (fit_benchmark_eq _ _ _ _ _ _ _ _ Hfit Ha Hn Hos) as Heq.
  cbv zeta in Heq. fold kvs in Heq.
  destruct (copy_all kvs.*2 (heap w1)) as [ls h2] eqn:E. cbn [fst snd] in Heq.
  destruct (copy_all_spec _ _ _ _ Hin E) as (Hkeep & Hnone & Hnew).
  set (mc := fresh (dom h2)) in *.
  set (h3 := <[mc := ONet n']> h2) in *.
  set (fp := fresh (dom h3)) in *.
  set (d := insert_all (zip kvs.*1 ls) (params a1)) in *.
  pose proof (fresh_lookup h2) as Hmc. fold mc in Hmc.
  pose proof (fresh_lookup h3) as Hfp. fold fp in Hfp.
  assert (Hfpmc : fp <> mc).
  { intros Heq'. unfold h3 in Hfp. rewrite Heq', lookup_insert_eq in Hfp.
    discriminate. }
  assert (Hfp2 : h2 !! fp = None).
  { unfold h3 in Hfp. by rewrite lookup_insert_ne in Hfp. }
  assert (Hlen : length ls = length kvs).
  { apply Forall2_length in Hnew. rewrite length_fmap in Hnew. congruence. }
  assert (Hks : (zip kvs.*1 ls).*1 = kvs.*1).
  { apply fst_zip. rewrite length_fmap. lia. }
  assert (Hup : forall l o, h2 !! l = Some o ->
            (<[fp := OEstimator (reference_estimator a1 mc d)]> h3) !! l = Some o).
  { intros l o Hl. rewrite lookup_insert_ne by (intros <-; congruence).
    unfold h3. rewrite lookup_insert_ne by (intros <-; congruence). done. }
  exists fp, (reference_estimator a1 mc d). eexists.
  split; [exact Heq|]. cbn [heap calls est_type est_module est_params
    est_initialized reference_estimator].
  split; [apply lookup_insert_eq|]. split; [done|]. split; [done|].
  split; [done|]. split; [intros l o Hl; by apply Hup, Hkeep|].
  split; [by apply Hnone|]. split; [by apply Hnone|].
  split; [rewrite lookup_insert_ne by done; apply lookup_insert_eq|].
  split; [apply lookup_delete_eq|]. split.
  - intros k Hk. rewrite lookup_delete_ne by done. unfold d.
    rewrite insert_all_dom, Hks. split; [|by right].
    intros [Hin' | ?]; [|done].
    apply list_elem_of_fmap in Hin' as ([k' l] & -> & Hin').
    apply elem_of_map_to_list in Hin'. by eexists.
  - intros k c [Hk Hd]%lookup_delete_Some. unfold d in Hd.
    apply insert_all_lookup in Hd as [Hin' | [Hnin Hd]].
    + apply elem_of_lookup_zip_with in Hin' as (i & k' & c' & [= <- <-] & Hki & Hci).
      rewrite list_lookup_fmap in Hki.
      destruct (kvs !! i) as [[k' l]|] eqn:Hkv; [|discriminate].
      injection Hki as ->.
      assert (Hli : kvs.*2 !! i = Some l) by by rewrite list_lookup_fmap, Hkv.
      destruct (Forall2_lookup_lr _ _ _ _ _ _ Hnew Hli Hci)
        as (o & Hl & Hc & Hkind).
      exists l, o. split; [|split; [done|split; [by apply Hup|split; [|done]]]].
      * apply elem_of_map_to_list. by eapply list_elem_of_lookup_2.
      * assert ((k, l) ∈ kvs) as Hkl by by eapply list_elem_of_lookup_2.
        apply elem_of_map_to_list in Hkl.
        destruct (Hparams k l Hkl) as (o' & Ho' & Hcopy). congruence.
    + exfalso. apply Hnin. rewrite Hks.
      apply list_elem_of_fmap. exists (k, c). split; [done|].
      by apply elem_of_map_to_list.
Qed.

End Clone.

(** ** The lifecycle claims *)

Section Claims.
Context `{Collaborators}.

(** C1: on an estimator that is fit and compiled (the state a successful
    [compile] leaves, [compile_Compiled]),
    [predict(X, execute_in_fhe=True)] on a batch of N rows returns a
    vector of N labels; the label at index [i] is the arg-max of the output
    of the compiled circuit on the quantized row [i], stored as a 32-bit
    signed integer: it is [int32] of the position of the first largest
    score, which is that position itself whenever it is below [2^31]; the
    label depends on row [i] only, so that reordering the rows reorders the
    labels in the same way; a one-dimensional input is handled as a batch
    of one row; every label lies in the range of a 32-bit signed integer,
    whatever the number of scores.  The arg-max of a row exists: the circuit
    returns at least one score for each row of the batch. *)
Theorem C1_predict_fhe_rowwise w self q m c rows :
  has_module w self q m ->
  forward_fhe m = Some c ->
  Forall (fun x => run c (quantize_input (qm_layers m) x) <> []) rows ->
  exists y_pred,
    (predict self (Arr2 rows) true w).1 = Ok (FheLabels y_pred) /\
    heap (predict self (Arr2 rows) true w).2 = heap w /\
    length y_pred = length rows /\
    y_pred = map (fhe_label m c) rows /\
    (forall i x, rows !! i = Some x ->
       exists k, is_argmax (run c (quantize_input (qm_layers m) x)) k /\
                 y_pred !! i = Some (int32 (Z.of_nat k)) /\
                 ((Z.of_nat k < 2 ^ 31)%Z -> y_pred !! i = Some (Z.of_nat k))) /\
    Forall (fun y => (- 2 ^ 31 <= y < 2 ^ 31)%Z) y_pred /\
    (forall idxs,
       (predict self (Arr2 (reorder idxs rows)) true w).1 =
         Ok (FheLabels (reorder idxs y_pred))) /\
    (forall v, predict self (Arr1 v) true w = predict self (Arr2 [v]) true w).
Proof.
  intros Hm Hc Hout.
  assert (Hne : forall xs, (forall x, x ∈ xs -> x ∈ rows) ->
    Forall (fun x => run c (quantize_input (qm_layers m) x) <> []) xs).
  { intros xs Hsub. apply Forall_forall. intros x Hx%Hsub.
    rewrite Forall_forall in Hout. by apply Hout. }
  exists (map (fhe_label m c) rows).
  rewrite (predict_fhe_eq w self q m c (Arr2 rows) Hm Hc) by (apply Hne; auto).
  cbn [fst snd heap add_calls].
  split; [done|]. split; [done|]. split; [apply length_map|]. split; [done|].
  split; [|split; [|split]].
  - intros i x Hx.
    assert (x ∈ rows) as Hin by by eapply list_elem_of_lookup_2.
    rewrite Forall_forall in Hout. specialize (Hout x Hin).
    destruct (argmax_is_Some (run c (quantize_input (qm_layers m) x)) Hout)
      as [k Hk].
    assert (Hlabel : map (fhe_label m c) rows !! i = Some (int32 (Z.of_nat k))).
    { change (map (fhe_label m c) rows) with (fhe_label m c <$> rows).
      rewrite list_lookup_fmap, Hx. simpl. f_equal.
      unfold fhe_label. by rewrite Hk. }
    exists k. split; [by apply argmax_spec|]. split; [done|].
    intros Hsmall. rewrite Hlabel. f_equal. apply int32_small. lia.
  - apply Forall_forall. intros y (x & -> & _)%list_elem_of_fmap.
    apply int32_range.
  - intros idxs.
    rewrite (predict_fhe_eq w self q m c (Arr2 (reorder idxs rows)) Hm Hc)
      by (apply Hne; intros x; apply reorder_elem_of).
    cbn [fst]. by rewrite reorder_map.
  - done.
Qed.

(** C2: on an estimator that was never fit (no quantized module),
    [compile] and [predict(X, execute_in_fhe=True)] raise the
    not-calibrated [ValueError] for every input; the world is left as it
    was, so that no collaborator was invoked. *)
Theorem C2_untrained_rejected w self X opts :
  Untrained w self ->
  compile self X opts w = (Raise NotCalibratedError, w) /\
  predict self X true w = (Raise NotCalibratedError, w).
Proof.
  intros (a & Ha & Hq). split.
  - unfold compile. mstep. by rewrite (get_quantized_module_eq _ _ _ Ha), Hq.
  - unfold predict. mstep. by rewrite (get_quantized_module_eq _ _ _ Ha), Hq.
Qed.

(** C3: on an estimator that is fit but whose quantized module has no
    compiled circuit, [predict(X, execute_in_fhe=True)] raises the
    not-compiled [ValueError] for every input, and does nothing else; that
    error is not the one of an estimator that was never fit. *)
Theorem C3_not_compiled_rejected w self X :
  Calibrated w self ->
  predict self X true w = (Raise NotCompiledError, w) /\
  NotCompiledError <> NotCalibratedError.
Proof.
  intros Hcal. split; [by apply predict_fhe_calibrated | discriminate].
Qed.

(** C4: [fit] first drops the quantized module, whatever it was, and only
    then trains the delegate, which therefore runs on an estimator without
    quantized module; when the training raises, the estimator is left
    without quantized module, the exception of the delegate reaches the
    caller as it is, and the delegate was invoked once. *)
Theorem C4_fit_training_failure w self a n X y fit_params n' e :
  heap w !! self = Some (OAdapter a) ->
  heap w !! base_module_to_compile a = Some (ONet n) ->
  train (<[self := OAdapter (with_quantized_module_ a None)]> (heap w))
        (with_quantized_module_ a None) n X y fit_params = (n', Some e) ->
  exists w',
    fit self X y fit_params w = (Raise (Propagated e), w') /\
    Untrained w' self /\
    calls w' = calls w ++ [CallSuperFit X y fit_params].
Proof.
  intros Ha Hn Htrain.
  pose proof (adapter_ne_net _ _ _ _ _ Ha Hn) as Hne.
  eexists. split; [|split].
  - unfold fit. rewrite (fit_prefix_eq _ w self a n) by done.
    rewrite Htrain. cbn [fst snd]. reflexivity.
  - exists (with_quantized_module_ a None). split; [|done]. cbn [heap].
    unfold trained_heap. rewrite lookup_insert_ne by done.
    apply lookup_insert_eq.
  - done.
Qed.

(** C5: a successful [compile] works on a new copy of the first quantized
    input of the module, refreshed with [X] under the parameters the input
    already had, and gives that copy to the compiler; in the store, the
    module gets the compiled circuit and keeps its inputs and layers, and
    every other object that existed, the quantized inputs of the module
    and the estimator among them, is as it was. *)
Theorem C5_compile_frame w self q m X opts w' :
  has_module w self q m ->
  compile self X opts w = (Ok tt, w') ->
  exists q0 arr c copy,
    q_inputs m !! 0 = Some q0 /\
    heap w !! q0 = Some (OQArray arr) /\
    heap w !! copy = None /\
    heap w' !! copy = Some (OQArray (refreshed arr X)) /\
    compiler (qm_layers m) (refreshed arr X) opts = inr c /\
    calls w' = calls w ++ [CallUpdateValues copy X; CallModuleCompile q copy opts] /\
    heap w' !! q = Some (OQModule (with_forward_fhe m c)) /\
    heap w' !! q0 = Some (OQArray arr) /\
    heap w' !! self = heap w !! self /\
    (forall l o, heap w !! l = Some o -> l <> q -> heap w' !! l = Some o).
Proof.
  intros Hm Hc.
  destruct (compile_ok_state _ _ _ _ _ Hc)
    as (q' & m' & q0 & arr & c & copy & Hm' & Hq0 & Harr & Hcomp & Hcopy & Hheap & Hcalls & _).
  destruct Hm as (a & Ha & Hq & Hqm), Hm' as (a' & Ha' & Hq' & Hqm').
  assert (a' = a) as -> by congruence.
  assert (q' = q) as -> by congruence.
  assert (m' = m) as -> by congruence.
  assert (Hframe : forall l o, heap w !! l = Some o -> l <> q ->
                               heap w' !! l = Some o).
  { intros l o Hl Hlq. rewrite Hheap, lookup_insert_ne by done.
    rewrite lookup_insert_ne; [done|]. intros <-. congruence. }
  assert (copy <> q) by (intros ->; congruence).
  exists q0, arr, c, copy. repeat split; try done.
  - rewrite Hheap, lookup_insert_ne by done. apply lookup_insert_eq.
  - rewrite Hheap. apply lookup_insert_eq.
  - apply Hframe; [done|]. intros ->. congruence.
  - rewrite Ha. apply Hframe; [done|]. intros ->. congruence.
Qed.

(** C6: when [fit] succeeds on a compiled estimator, the estimator is
    calibrated and not compiled: [predict(X, execute_in_fhe=True)] raises
    the not-compiled [ValueError], and goes on doing so, until [compile]
    succeeds, after which the estimator is compiled and [predict] does not
    raise that error. *)
Theorem C6_refit_resets w self X y fit_params r w1 :
  Compiled w self ->
  fit self X y fit_params w = (Ok r, w1) ->
  Calibrated w1 self /\
  (forall X', predict self X' true w1 = (Raise NotCompiledError, w1)) /\
  (forall Xc opts w2,
     compile self Xc opts w1 = (Ok tt, w2) ->
     Compiled w2 self /\
     forall X', (predict self X' true w2).1 <> Raise NotCompiledError).
Proof.
  intros _ Hfit.
  destruct (fit_inv _ _ _ _ _ _ _ Hfit)
    as (a & n & n' & x0 & nm & layers & arrays & Ha & Hn & Ht & Hx & Htr & Hq).
  destruct (fit_ok_state _ _ _ _ _ _ _ _ _ _ _ _ Ha Hn Ht Hx Htr Hq)
    as (q & ls & w2 & Hfit2 & _ & Hs & Hm & _).
  rewrite Hfit in Hfit2. injection Hfit2 as _ <-.
  assert (Hcal : Calibrated w1 self).
  { exists q, (calibrated_module ls layers). split; [|done].
    by exists (with_quantized_module_ a (Some q)). }
  split; [done|]. split; [intros X'; by apply predict_fhe_calibrated|].
  intros Xc opts w2 Hc.
  destruct (compile_ok_state _ _ _ _ _ Hc)
    as (q' & m' & q0 & arr & c & copy & _ & _ & _ & _ & _ & _ & _ & Hm2).
  assert (Compiled w2 self) as Hcomp by by exists q', (with_forward_fhe m' c), c.
  split; [done|]. intros X'. by apply predict_fhe_compiled.
Qed.

(** C7: when the training, the tracer and the quantizer succeed on a
    two-dimensional input with at least one row, [fit] returns [self] and
    the estimator is calibrated: its quantized module is what the signed
    post-training quantization, at the bit width of the estimator, of the
    network traced on row 0, calibrated on the whole of [X], produced, and
    it has no compiled circuit. *)
Theorem C7_fit_calibrates w self a n X y fit_params n' x0 rest nm layers arrays :
  heap w !! self = Some (OAdapter a) ->
  heap w !! base_module_to_compile a = Some (ONet n) ->
  X = Arr2 (x0 :: rest) ->
  train (<[self := OAdapter (with_quantized_module_ a None)]> (heap w))
        (with_quantized_module_ a None) n X y fit_params = (n', None) ->
  trace n' x0 = inr nm ->
  quantize (n_bits_quant a) nm true X = inr (layers, arrays) ->
  exists q ls w',
    fit self X y fit_params w = (Ok self, w') /\
    Calibrated w' self /\
    has_module w' self q (calibrated_module ls layers) /\
    Forall2 (fun l arr => heap w' !! l = Some (OQArray arr)) ls arrays /\
    calls w' = calls w ++ fit_calls a X y fit_params x0.
Proof.
  intros Ha Hn -> Ht Htr Hq.
  destruct (fit_ok_state _ _ _ _ _ _ _ _ x0 _ _ _ Ha Hn Ht eq_refl Htr Hq)
    as (q & ls & w' & Hfit & Hcalls & Hs & Hm & Harrs & _).
  assert (Hhas : has_module w' self q (calibrated_module ls layers))
    by by exists (with_quantized_module_ a (Some q)).
  exists q, ls, w'. repeat split; try done.
  by exists q, (calibrated_module ls layers).
Qed.

(** C8 (amended): on an estimator that is at least calibrated, whether
    compiled or not, [predict(X, execute_in_fhe=False)] is the call of the
    delegate's own [predict] and nothing else: it returns the delegate's
    predictions when the delegate returns, and raises the delegate's own
    exception when the delegate raises, so it succeeds exactly when the
    delegate does; it raises neither the not-calibrated nor the not-compiled
    [ValueError], writes no object, and invokes no collaborator but the
    delegate (the circuit is never run); it asks for no circuit, where the
    FHE path on the same estimator, when not compiled, is refused. *)
Theorem C8_clear_predict_delegates w self q m X :
  has_module w self q m ->
  exists a,
    heap w !! self = Some (OAdapter a) /\
    predict self X false w =
      (match delegate_predict (heap w) a X with
       | inl e => Raise (Propagated e)
       | inr p => Ok (Native p)
       end, add_calls w [CallSuperPredict X]) /\
    ((exists r, (predict self X false w).1 = Ok r) <->
     (exists p, delegate_predict (heap w) a X = inr p)) /\
    (predict self X false w).1 <> Raise NotCompiledError /\
    (predict self X false w).1 <> Raise NotCalibratedError /\
    heap (predict self X false w).2 = heap w /\
    calls (predict self X false w).2 = calls w ++ [CallSuperPredict X] /\
    (forward_fhe m = None ->
       predict self X true w = (Raise NotCompiledError, w)).
Proof.
  intros Hm. pose proof Hm as (a & Ha & Hq & Hqm). exists a.
  split; [done|]. rewrite (predict_clear_eq _ _ _ _ Ha).
  split; [done|]. cbn [fst snd heap calls add_calls].
  split; [|split; [|split; [|split; [done|split; [done|]]]]].
  - destruct (delegate_predict (heap w) a X) as [e | p].
    + split; intros [? ?]; discriminate.
    + split; intros _; by eexists.
  - by destruct (delegate_predict (heap w) a X).
  - by destruct (delegate_predict (heap w) a X).
  - intros Hc. apply predict_fhe_calibrated. by exists q, m.
Qed.

(** C9: when [fit] succeeds (and the parameter values of the estimator
    can be deep-copied), [fit_benchmark] leaves the estimator calibrated
    and returns [self] with a reference estimator of the class
    [base_estimator_type]: it was built on a deep copy of the trained
    network, given explicitly, and on deep copies of the parameters of the
    estimator, without the parameter [module]; it was initialized, not
    trained.  The deep copy of a mutable parameter value is a new object
    with the same content; the deep copy of an atomic value (a number, a
    string, [None], a class) is the value itself.  So the objects of the
    reference estimator that the estimator can reach are atomic values
    only: the two share no mutable state; and no later sequence of [fit] and
    [compile] on the estimator changes any object of the reference
    estimator. *)
Theorem C9_fit_benchmark_reference
    w self a n X y n' x0 rest nm layers arrays :
  heap w !! self = Some (OAdapter a) ->
  heap w !! base_module_to_compile a = Some (ONet n) ->
  (forall k l, params a !! k = Some l ->
     exists o, heap w !! l = Some o /\ copyable o) ->
  X = Arr2 (x0 :: rest) ->
  train (<[self := OAdapter (with_quantized_module_ a None)]> (heap w))
        (with_quantized_module_ a None) n X y no_fit_params = (n', None) ->
  trace n' x0 = inr nm ->
  quantize (n_bits_quant a) nm true X = inr (layers, arrays) ->
  exists fp e w',
    fit_benchmark self X y w = (Ok (self, fp), w') /\
    Calibrated w' self /\
    heap w' !! fp = Some (OEstimator e) /\
    est_type e = base_estimator_type a /\
    est_initialized e = true /\
    calls w' = calls w ++ fit_calls a X y no_fit_params x0 ++
      [CallGetParams; CallKlass (est_type e) (est_module e) (est_params e);
       CallInitialize fp] /\
    est_module e <> base_module_to_compile a /\
    heap w !! est_module e = None /\
    heap w' !! est_module e = Some (ONet n') /\
    heap w' !! base_module_to_compile a = Some (ONet n') /\
    est_params e !! "module" = None /\
    (forall k, k <> "module" ->
       (is_Some (est_params e !! k) <-> is_Some (params a !! k))) /\
    (forall k c, est_params e !! k = Some c ->
       exists l o, params a !! k = Some l /\
                   heap w' !! l = Some o /\ heap w' !! c = Some o /\
                   if is_atom o then c = l
                   else c <> l /\ heap w !! c = None) /\
    (forall l, owned_by (heap w') fp l -> reachable_from (heap w') self l ->
       exists v, heap w' !! l = Some (OAtom v)) /\
    (forall ops l, owned_by (heap w') fp l ->
       heap (run_ops self ops w') !! l = heap w' !! l).
Proof.
  intros Ha Hn Hparams -> Ht Htr Hq.
  destruct (fit_ok_state _ _ _ _ _ _ _ _ x0 _ _ _ Ha Hn Ht eq_refl Htr Hq)
    as (q & ls & w1 & Hfit & Hcalls1 & Hs1 & Hm1 & Harrs & Hnet1 & _ & _ & Hkeep1
        & Hnone1).
  set (a1 := with_quantized_module_ a (Some q)) in *.
  assert (Hparams1 : forall k l, params a1 !! k = Some l ->
            exists o, heap w1 !! l = Some o /\ copyable o).
  { intros k l Hkl. destruct (Hparams k l Hkl) as (o & Ho & Hcopy).
    destruct (decide (l = base_module_to_compile a)) as [-> | Hne];
      [by exists (ONet n')|].
    exists o. split; [|done]. apply Hkeep1; [|done..].
    intros ->. rewrite Ha in Ho. injection Ho as <-. done. }
  destruct (clone_state _ _ _ _ _ _ a1 n' Hfit Hs1 Hnet1 Hparams1)
    as (fp & e & w2 & Hbench & Hfp & Htype & Hinit & Hcalls2 & Hkeep2 & Hfpnew
        & Hmcnew & Hmc & Hnomod & Hdom & Hcopies).
  (* an object of the reference estimator is new, or an atomic value *)
  assert (Hnew : forall l, owned_by (heap w2) fp l ->
            heap w1 !! l = None \/ exists v, heap w2 !! l = Some (OAtom v)).
  { intros l [-> | (e' & He' & Hl)]; [by left|].
    rewrite Hfp in He'. injection He' as <-.
    destruct Hl as [-> | [k Hk]]; [by left|].
    destruct (Hcopies k l Hk) as (l0 & o & _ & _ & Ho & _ & Hkind).
    destruct o; cbn [is_atom] in Hkind; try (by left). right. by eexists. }
  assert (Hobj : forall l, owned_by (heap w2) fp l ->
            exists o, heap w2 !! l = Some o /\ forall m, o <> OQModule m).
  { intros l [-> | (e' & He' & Hl)]; [by eauto|].
    rewrite Hfp in He'. injection He' as <-.
    destruct Hl as [-> | [k Hk]]; [by eauto|].
    destruct (Hcopies k l Hk) as (l0 & o & _ & _ & Ho & Hcopy & _).
    exists o. split; [done|]. by apply copyable_not_module. }
  assert (Hold : forall l, reachable_from (heap w2) self l ->
            heap w1 !! l <> None).
  { intros l [-> | (a' & Ha' & Hl)]; [congruence|].
    rewrite (Hkeep2 _ _ Hs1) in Ha'. injection Ha' as <-.
    destruct Hl as [-> | [[k Hk] | (q' & Hq' & Hl)]];
      [unfold a1; cbn; congruence | |].
    - destruct (Hparams1 k l Hk) as (o & Ho & _). congruence.
    - injection Hq' as <-. destruct Hl as [-> | (m & Hm & Hl)]; [congruence|].
      rewrite (Hkeep2 _ _ Hm1) in Hm. injection Hm as <-. cbn in Hl.
      apply list_elem_of_lookup in Hl as [i Hi].
      destruct (Forall2_lookup_l _ _ _ _ _ Harrs Hi) as (arr & _ & Harr).
      congruence. }
  exists fp, e, w2. split; [done|].
  split.
  { exists q, (calibrated_module ls layers). split; [|done].
    exists a1. split; [by apply Hkeep2|]. split; [done|]. by apply Hkeep2. }
  split; [done|]. split; [done|]. split; [done|].
  split; [by rewrite Hcalls2, Hcalls1, <- app_assoc|].
  split; [intros Heq; rewrite Heq, Hnet1 in Hmcnew; discriminate|].
  split; [by apply Hnone1|].
  split; [done|]. split; [by apply Hkeep2|]. split; [done|]. split; [done|].
  split.
  { intros k c Hk.
    destruct (Hcopies k c Hk) as (l & o & Hl & Hlo & Hco & _ & Hkind).
    exists l, o. split; [done|]. split; [by apply Hkeep2|]. split; [done|].
    destruct (is_atom o); [done|]. split; [|by apply Hnone1].
    intros ->. congruence. }
  split.
  { intros l Hown Hr. destruct (Hnew l Hown) as [Hl | Hv]; [|done].
    by apply Hold in Hr. }
  intros ops l Hown. destruct (Hobj l Hown) as (o & Ho & Hkind).
  rewrite Ho.
  apply (run_ops_keep self ops w2 a1 n'); try done.
  - by apply Hkeep2.
  - by apply Hkeep2.
  - intros ->. rewrite (Hkeep2 _ _ Hs1) in Ho.
    destruct (Hnew self Hown) as [? | [v Hv]]; [congruence|].
    rewrite (Hkeep2 _ _ Hs1) in Hv. discriminate.
  - intros ->. cbn in Ho. rewrite (Hkeep2 _ _ Hnet1) in Ho.
    destruct (Hnew _ Hown) as [? | [v Hv]]; [cbn in *; congruence|].
    cbn in Hv. rewrite (Hkeep2 _ _ Hnet1) in Hv. discriminate.
Qed.

(** C10: with [execute_in_fhe=False], [predict] checks nothing: on an
    estimator that was never fit the call goes to the delegate's
    [predict], a failure is the delegate's own exception, and the
    not-calibrated [ValueError] is never raised. *)
Theorem C10_clear_predict_unchecked w self a X :
  heap w !! self = Some (OAdapter a) ->
  quantized_module_ a = None ->
  predict self X false w =
    (match delegate_predict (heap w) a X with
     | inl e => Raise (Propagated e)
     | inr p => Ok (Native p)
     end, add_calls w [CallSuperPredict X]) /\
  (predict self X false w).1 <> Raise NotCalibratedError.
Proof.
  intros Ha _. rewrite (predict_clear_eq _ _ _ _ Ha). split; [done|].
  simpl. by destruct (delegate_predict (heap w) a X).
Qed.

End Claims.

(** ** The claims on the small instance *)

Section Witnesses.
#[local] Existing Instance Toy.T.
#[local] Existing Instance Toy.C.

Lemma C1_predict_fhe_rowwise_witness :
  has_module Toy.w_compiled Toy.self 5%positive Toy.m_compiled /\
  exists y_pred,
    (predict Toy.self Toy.X_train true Toy.w_compiled).1 = Ok (FheLabels y_pred) /\
    length y_pred = 3 /\
    y_pred = [1; 0; 0]%Z /\
    Forall (fun y => (- 2 ^ 31 <= y < 2 ^ 31)%Z) y_pred /\
    (forall idxs,
       (predict Toy.self (Arr2 (H := Toy.T) (reorder idxs [[1; 2]; [4; 3]; [0; 0]]%Z)) true
          Toy.w_compiled).1 = Ok (FheLabels (reorder idxs y_pred))).
Proof.
  assert (Hm : has_module Toy.w_compiled Toy.self 5%positive Toy.m_compiled).
  { eexists. split; [vm_compute; reflexivity|]. split; vm_compute; reflexivity. }
  split; [exact Hm|].
  destruct (C1_predict_fhe_rowwise Toy.w_compiled Toy.self 5%positive
              Toy.m_compiled 6%Z [[1; 2]; [4; 3]; [0; 0]]%Z Hm eq_refl)
    as (y_pred & Hy & _ & Hlen & Hmap & _ & Hrange & Hperm & _).
  { repeat constructor; vm_compute; discriminate. }
  exists y_pred. split; [exact Hy|]. split; [exact Hlen|].
  split; [|split; [exact Hrange | exact Hperm]].
  rewrite Hmap. vm_compute. reflexivity.
Defined.

Lemma C2_untrained_rejected_witness :
  Untrained Toy.w_untrained Toy.self /\
  compile Toy.self Toy.X_train Toy.opts Toy.w_untrained =
    (Raise NotCalibratedError, Toy.w_untrained) /\
  predict Toy.self Toy.X_train true Toy.w_untrained =
    (Raise NotCalibratedError, Toy.w_untrained).
Proof.
  assert (Hu : Untrained Toy.w_untrained Toy.self).
  { exists Toy.a_untrained. split; vm_compute; reflexivity. }
  split; [exact Hu|]. apply (C2_untrained_rejected _ _ _ _ Hu).
Defined.

Lemma C3_not_compiled_rejected_witness :
  Calibrated Toy.w_calibrated Toy.self /\
  predict Toy.self Toy.X_train true Toy.w_calibrated =
    (Raise NotCompiledError, Toy.w_calibrated) /\
  NotCompiledError <> NotCalibratedError.
Proof.
  assert (Hc : Calibrated Toy.w_calibrated Toy.self).
  { exists 5%positive, Toy.m_calibrated. split; [|reflexivity].
    eexists. split; [vm_compute; reflexivity|]. split; vm_compute; reflexivity. }
  split; [exact Hc|]. apply (C3_not_compiled_rejected _ _ _ Hc).
Defined.

Lemma C4_fit_training_failure_witness :
  exists w',
    fit Toy.self Toy.X_train [] tt Toy.w_compiled =
      (Raise (Propagated "no labels"), w') /\
    Untrained w' Toy.self /\
    calls w' = calls Toy.w_compiled ++ [CallSuperFit Toy.X_train [] tt].
Proof.
  eapply (C4_fit_training_failure Toy.w_compiled Toy.self);
    vm_compute; reflexivity.
Defined.

Lemma C5_compile_frame_witness :
  exists q0 arr c copy,
    q_inputs Toy.m_calibrated !! 0 = Some q0 /\
    heap Toy.w_calibrated !! q0 = Some (OQArray arr) /\
    heap Toy.w_calibrated !! copy = None /\
    heap Toy.w_compiled !! copy = Some (OQArray (refreshed arr Toy.X_train)) /\
    compiler (qm_layers Toy.m_calibrated) (refreshed arr Toy.X_train) Toy.opts
      = inr c /\
    calls Toy.w_compiled = calls Toy.w_calibrated ++
      [CallUpdateValues copy Toy.X_train;
       CallModuleCompile 5%positive copy Toy.opts] /\
    heap Toy.w_compiled !! 5%positive =
      Some (OQModule (with_forward_fhe Toy.m_calibrated c)) /\
    heap Toy.w_compiled !! q0 = Some (OQArray arr) /\
    heap Toy.w_compiled !! Toy.self = heap Toy.w_calibrated !! Toy.self /\
    (forall l o, heap Toy.w_calibrated !! l = Some o -> l <> 5%positive ->
       heap Toy.w_compiled !! l = Some o).
Proof.
  apply (C5_compile_frame Toy.w_calibrated Toy.self 5%positive
           Toy.m_calibrated Toy.X_train Toy.opts Toy.w_compiled).
  - eexists. split; [vm_compute; reflexivity|]. split; vm_compute; reflexivity.
  - vm_compute. reflexivity.
Defined.

Lemma C6_refit_resets_witness :
  Compiled Toy.w_compiled Toy.self /\
  Calibrated Toy.w_refit Toy.self /\
  (forall X', predict Toy.self X' true Toy.w_refit =
     (Raise NotCompiledError, Toy.w_refit)) /\
  (forall Xc opts w2,
     compile Toy.self Xc opts Toy.w_refit = (Ok tt, w2) ->
     Compiled w2 Toy.self /\
     forall X', (predict Toy.self X' true w2).1 <> Raise NotCompiledError).
Proof.
  assert (Hc : Compiled Toy.w_compiled Toy.self).
  { exists 5%positive, Toy.m_compiled, 6%Z. split; [|reflexivity].
    eexists. split; [vm_compute; reflexivity|]. split; vm_compute; reflexivity. }
  split; [exact Hc|].
  apply (C6_refit_resets Toy.w_compiled Toy.self Toy.X_train Toy.y_train tt
           Toy.self Toy.w_refit Hc).
  vm_compute. reflexivity.
Defined.

Lemma C7_fit_calibrates_witness :
  exists q ls w',
    fit Toy.self Toy.X_train Toy.y_train tt Toy.w_untrained = (Ok Toy.self, w') /\
    Calibrated w' Toy.self /\
    has_module w' Toy.self q (calibrated_module ls 6%Z) /\
    Forall2 (fun l arr => heap w' !! l = Some (OQArray arr)) ls
            [Toy.arr_calibrated] /\
    calls w' = calls Toy.w_untrained ++
      fit_calls Toy.a_untrained Toy.X_train Toy.y_train tt [1; 2]%Z.
Proof.
  eapply (C7_fit_calibrates Toy.w_untrained Toy.self Toy.a_untrained 5%Z
            Toy.X_train Toy.y_train tt 6%Z [1; 2]%Z [[4; 3]; [0; 0]]%Z 6%Z);
    vm_compute; reflexivity.
Defined.

Lemma C8_clear_predict_delegates_witness :
  has_module Toy.w_calibrated Toy.self 5%positive Toy.m_calibrated /\
  exists a,
    heap Toy.w_calibrated !! Toy.self = Some (OAdapter a) /\
    predict Toy.self Toy.X_train false Toy.w_calibrated =
      (match delegate_predict (heap Toy.w_calibrated) a Toy.X_train with
       | inl e => Raise (Propagated e)
       | inr p => Ok (Native p)
       end, add_calls Toy.w_calibrated [CallSuperPredict Toy.X_train]) /\
    predict Toy.self Toy.X_train true Toy.w_calibrated =
      (Raise NotCompiledError, Toy.w_calibrated).
Proof.
  assert (Hm : has_module Toy.w_calibrated Toy.self 5%positive Toy.m_calibrated).
  { eexists. split; [vm_compute; reflexivity|]. split; vm_compute; reflexivity. }
  split; [exact Hm|].
  destruct (C8_clear_predict_delegates Toy.w_calibrated Toy.self 5%positive
              Toy.m_calibrated Toy.X_train Hm)
    as (a & Ha & Hp & _ & _ & _ & _ & _ & Hfhe).
  exists a. split; [exact Ha|]. split; [exact Hp|]. exact (Hfhe eq_refl).
Defined.

(** C8 as it was stated fails: the toy estimator is calibrated, its
    delegate refuses a one-dimensional input, and [predict] in the clear
    raises the delegate's exception instead of returning. *)
Lemma C8_clear_predict_counterexample :
  Calibrated Toy.w_calibrated Toy.self /\
  predict Toy.self (Arr1 (H := Toy.T) [1; 2]%Z) false Toy.w_calibrated =
    (Raise (Propagated (H := Toy.T) "expected a batch"),
     add_calls Toy.w_calibrated
       [CallSuperPredict (Arr1 (H := Toy.T) [1; 2]%Z)]).
Proof.
  split.
  - exists 5%positive, Toy.m_calibrated. split; [|reflexivity].
    eexists. split; [vm_compute; reflexivity|]. split; vm_compute; reflexivity.
  - vm_compute. reflexivity.
Qed.

Lemma C9_fit_benchmark_reference_witness :
  exists fp e w',
    fit_benchmark Toy.self Toy.X_train Toy.y_train ToyAtoms.w_untrained =
      (Ok (Toy.self, fp), w') /\
    Calibrated w' Toy.self /\
    heap w' !! fp = Some (OEstimator e) /\
    est_type e = "NeuralNetClassifier" /\
    est_initialized e = true /\
    est_params e !! "module" = None /\
    is_Some (est_params e !! "lr") /\
    is_Some (est_params e !! "callbacks") /\
    (forall k c, est_params e !! k = Some c ->
       exists l o, params ToyAtoms.a_untrained !! k = Some l /\
                   heap w' !! l = Some o /\ heap w' !! c = Some o /\
                   if is_atom o then c = l
                   else c <> l /\ heap ToyAtoms.w_untrained !! c = None) /\
    (forall l, owned_by (heap w') fp l -> reachable_from (heap w') Toy.self l ->
       exists v, heap w' !! l = Some (OAtom v)) /\
    (forall ops l, owned_by (heap w') fp l ->
       heap (run_ops Toy.self ops w') !! l = heap w' !! l).
Proof.
  assert (Hparams : forall k l, params ToyAtoms.a_untrained !! k = Some l ->
            exists o, heap ToyAtoms.w_untrained !! l = Some o /\ copyable o).
  { intros k l Hkl. cbn in Hkl.
    apply lookup_insert_Some in Hkl as [[_ <-] | [_ Hkl]].
    { exists (ONet (H := Toy.T) 5%Z). split; [vm_compute; reflexivity | exact I]. }
    apply lookup_insert_Some in Hkl as [[_ <-] | [_ Hkl]].
    { exists (OAtom (H := Toy.T) 7%Z). split; [vm_compute; reflexivity | exact I]. }
    apply lookup_singleton_Some in Hkl as [_ <-].
    exists (OParam (H := Toy.T) 9%Z). split; [vm_compute; reflexivity | exact I]. }
  destruct (C9_fit_benchmark_reference ToyAtoms.w_untrained Toy.self
              ToyAtoms.a_untrained 5%Z Toy.X_train Toy.y_train 6%Z [1; 2]%Z
              [[4; 3]; [0; 0]]%Z 6%Z 6%Z [ToyAtoms.arr_calibrated]
              ltac:(vm_compute; reflexivity) ltac:(vm_compute; reflexivity)
              Hparams eq_refl ltac:(vm_compute; reflexivity)
              ltac:(vm_compute; reflexivity) ltac:(vm_compute; reflexivity))
    as (fp & e & w' & Hfit & Hcal & Hfp & Hty & Hinit & _ & _ & _ & _ & _ & Hmod
        & Hdom & Hcopies & Hsep & Hkeep).
  exists fp, e, w'.
  split; [exact Hfit|]. split; [exact Hcal|]. split; [exact Hfp|].
  split; [exact Hty|]. split; [exact Hinit|]. split; [exact Hmod|].
  split.
  { apply Hdom; [discriminate|]. exists 2%positive. vm_compute. reflexivity. }
  split.
  { apply Hdom; [discriminate|]. exists 4%positive. vm_compute. reflexivity. }
  split; [exact Hcopies|]. split; [exact Hsep | exact Hkeep].
Defined.

Lemma C10_clear_predict_unchecked_witness :
  predict Toy.self (Arr1 (H := Toy.T) [1; 2]%Z) false Toy.w_untrained =
    (Raise (Propagated "expected a batch"),
     add_calls Toy.w_untrained [CallSuperPredict (Arr1 (H := Toy.T) [1; 2]%Z)]) /\
  (predict Toy.self (Arr1 (H := Toy.T) [1; 2]%Z) false Toy.w_untrained).1 <>
    Raise NotCalibratedError.
Proof.
  assert (Ha : heap Toy.w_untrained !! Toy.self = Some (OAdapter Toy.a_untrained))
    by (vm_compute; reflexivity).
  exact (C10_clear_predict_unchecked Toy.w_untrained Toy.self Toy.a_untrained
           (Arr1 (H := Toy.T) [1; 2]%Z) Ha eq_refl).
Defined.

End Witnesses.

(** ** Computations that write nothing *)

Section ReadOnly.
Context `{Collaborators}.

Lemma readonly_ret {A} (a : A) : readonly (mret a : M A).
Proof. intros h. exists (Ok a), []. intros cs0. by rewrite app_nil_r. Qed.

Lemma readonly_raise {A} e : readonly (raise e : M A).
Proof. intros h. exists (Raise e), []. intros cs0. by rewrite app_nil_r. Qed.

Lemma readonly_log c : readonly (log c).
Proof. intros h. by exists (Ok tt), [c]. Qed.

Lemma readonly_get_heap : readonly get_heap.
Proof. intros h. exists (Ok h), []. intros cs0. by rewrite app_nil_r. Qed.

Lemma readonly_load l : readonly (load l).
Proof.
  intros h. unfold load. cbn [heap]. destruct (h !! l) as [o|].
  - exists (Ok o), []. intros cs0. by rewrite app_nil_r.
  - exists (Raise AttributeError), []. intros cs0. by rewrite app_nil_r.
Qed.

Lemma readonly_bind {A B} (m : M A) (k : A -> M B) :
  readonly m -> (forall a, readonly (k a)) -> readonly (m ≫= k).
Proof.
  intros Hm Hk h. destruct (Hm h) as (r & cs & Hr).
  destruct r as [a | e].
  - destruct (Hk a h) as (r' & cs' & Hr'). exists r', (cs ++ cs').
    intros cs0. mstep. rewrite Hr, Hr'. by rewrite app_assoc.
  - exists (Raise e), cs. intros cs0. mstep. by rewrite Hr.
Qed.

Lemma readonly_for_each {A S} (body : A -> S -> M S) xs :
  (forall x acc, readonly (body x acc)) ->
  forall acc, readonly (for_each xs acc body).
Proof.
  intros Hbody. induction xs as [|x xs IH]; intros acc; cbn [for_each].
  - apply readonly_ret.
  - apply readonly_bind; [apply Hbody | apply IH].
Qed.

Lemma readonly_load_adapter l : readonly (load_adapter l).
Proof.
  apply readonly_bind; [apply readonly_load|].
  intros []; (apply readonly_ret || apply readonly_raise).
Qed.

Lemma readonly_load_module l : readonly (load_module l).
Proof.
  apply readonly_bind; [apply readonly_load|].
  intros []; (apply readonly_ret || apply readonly_raise).
Qed.

Lemma readonly_the_quantized_module self :
  readonly (the_quantized_module self).
Proof.
  apply readonly_bind.
  - apply readonly_bind; [apply readonly_load_adapter|].
    intros a. apply readonly_ret.
  - intros [q|]; [|apply readonly_raise].
    apply readonly_bind; [apply readonly_load_module|].
    intros m. apply readonly_ret.
Qed.

Lemma readonly_predict_row self row y_pred :
  readonly (predict_row self row y_pred).
Proof.
  destruct row as [idx x]. unfold predict_row.
  apply readonly_bind; [apply readonly_the_quantized_module|]. intros [q m].
  apply readonly_bind.
  { apply readonly_bind; [apply readonly_log | intros; apply readonly_ret]. }
  intros q_x.
  apply readonly_bind; [apply readonly_the_quantized_module|]. intros [q' m'].
  apply readonly_bind.
  { unfold forward_fhe_run. destruct (forward_fhe m'); [|apply readonly_raise].
    apply readonly_bind; [apply readonly_log | intros; apply readonly_ret]. }
  intros out. destruct (argmax out); [apply readonly_ret | apply readonly_raise].
Qed.

Lemma readonly_predict self X execute_in_fhe :
  readonly (predict self X execute_in_fhe).
Proof.
  unfold predict. destruct execute_in_fhe.
  - apply readonly_bind.
    { apply readonly_bind; [apply readonly_load_adapter|].
      intros a. apply readonly_ret. }
    intros [q|]; [|apply readonly_raise].
    apply readonly_bind; [apply readonly_the_quantized_module|]. intros [q' m].
    destruct (negb (is_compiled m)); [apply readonly_raise|].
    apply readonly_bind; [|intros; apply readonly_ret].
    apply readonly_for_each. intros. apply readonly_predict_row.
  - apply readonly_bind; [|intros; apply readonly_ret].
    unfold super_predict.
    apply readonly_bind; [apply readonly_log|]. intros _.
    apply readonly_bind; [apply readonly_load_adapter|]. intros a.
    apply readonly_bind; [apply readonly_get_heap|]. intros h.
    destruct (delegate_predict h a X); [apply readonly_raise | apply readonly_ret].
Qed.

Lemma readonly_run {A} (m : M A) w :
  readonly m ->
  heap (m w).2 = heap w /\
  forall w2, heap w2 = heap w -> (m w2).1 = (m w).1.
Proof.
  intros Hm. destruct (Hm (heap w)) as (r & cs & Hr). split.
  - destruct w as [h cs0]. cbn [heap] in *. by rewrite Hr.
  - intros [h2 cs2] Hh. cbn [heap] in Hh. subst h2.
    destruct w as [h cs0]. cbn [heap] in *. by rewrite !Hr.
Qed.

End ReadOnly.

(** ** Further properties of [predict] and of the constructor *)

Section MorePredict.
Context `{Collaborators}.

Lemma Untrained_heap w1 w2 self :
  heap w1 = heap w2 -> Untrained w1 self -> Untrained w2 self.
Proof. intros Hh (a & Ha & Hq). exists a. by rewrite <- Hh. Qed.

Lemma has_module_heap w1 w2 self q m :
  heap w1 = heap w2 -> has_module w1 self q m -> has_module w2 self q m.
Proof. intros Hh (a & Ha & Hq & Hm). exists a. by rewrite <- Hh. Qed.

Lemma for_each_app {A S} (body : A -> S -> M S) xs ys : forall acc w,
  for_each (xs ++ ys) acc body w =
    (acc' ← for_each xs acc body; for_each ys acc' body) w.
Proof.
  induction xs as [|x xs IH]; intros acc w; cbn [for_each app].
  - done.
  - mstep. destruct (body x acc w) as [[acc' | e] w1]; [|done].
    rewrite IH. by mstep.
Qed.

Lemma enumerate_from_app {A} (xs ys : list A) : forall i,
  enumerate_from i (xs ++ ys) =
    enumerate_from i xs ++ enumerate_from (i + length xs) ys.
Proof.
  induction xs as [|x xs IH]; intros i; simpl.
  - by rewrite Nat.add_0_r.
  - rewrite IH. do 3 f_equal. lia.
Qed.

Lemma predict_row_empty w self q m c idx x y_pred :
  has_module w self q m -> forward_fhe m = Some c ->
  run c (quantize_input (qm_layers m) x) = [] ->
  predict_row self (idx, x) y_pred w =
    (Raise (ValueError "attempt to get argmax of an empty sequence"),
     add_calls w (fhe_calls m x)).
Proof.
  intros Hm Hc Hout. unfold predict_row. mstep.
  rewrite (the_quantized_module_eq _ _ _ _ Hm).
  unfold module_quantize_input, log. mstep.
  rewrite (the_quantized_module_eq _ _ _ _ (has_module_add_calls _ _ _ _ _ Hm)).
  unfold forward_fhe_run, log. rewrite Hc. mstep.
  rewrite add_calls_app, Hout. done.
Qed.

(** X8: [predict], in either mode and in any state, writes nothing to the
    store (it only adds to the call log): the estimator is in the same
    lifecycle state after the call, and the result of a call does not
    depend on the calls of [predict] made before it. *)
Theorem X8_predict_is_a_query w self X execute_in_fhe :
  heap (predict self X execute_in_fhe w).2 = heap w /\
  (Untrained w self ->
     Untrained (predict self X execute_in_fhe w).2 self) /\
  (forall q m, has_module w self q m ->
     has_module (predict self X execute_in_fhe w).2 self q m) /\
  (forall X' b',
     (predict self X execute_in_fhe (predict self X' b' w).2).1 =
       (predict self X execute_in_fhe w).1).
Proof.
  destruct (readonly_run _ w (readonly_predict self X execute_in_fhe))
    as [Hheap Hsame].
  split; [done|]. split; [by apply Untrained_heap|].
  split; [intros q m; by apply has_module_heap|].
  intros X' b'. apply Hsame.
  by destruct (readonly_run _ w (readonly_predict self X' b')).
Qed.

(** X9: on a compiled estimator, the FHE path of [predict] handles the
    rows one at a time, in input order: for each row it quantizes that row
    and runs the circuit once on the quantized row, so that a batch of N
    rows costs N runs of the circuit (none for an empty batch). *)
Theorem X9_predict_fhe_calls w self q m c rows :
  has_module w self q m ->
  forward_fhe m = Some c ->
  Forall (fun x => run c (quantize_input (qm_layers m) x) <> []) rows ->
  calls (predict self (Arr2 rows) true w).2 =
    calls w ++
    concat (map (fun x => [CallQuantizeInput x;
                           CallRun (quantize_input (qm_layers m) x)]) rows) /\
  length (calls (predict self (Arr2 rows) true w).2) =
    length (calls w) + 2 * length rows.
Proof.
  intros Hm Hc Hout.
  rewrite (predict_fhe_eq w self q m c (Arr2 rows) Hm Hc Hout).
  cbn [snd calls add_calls]. split; [done|].
  rewrite length_app. f_equal. unfold fhe_calls.
  clear. induction rows as [|x rows IH]; simpl; lia.
Qed.

(** X10: on a compiled estimator, when the circuit returns an empty score
    vector for some row, the FHE path of [predict] raises numpy's
    [ValueError] at that row: no label is returned, not even for the rows
    before it, and the rows after it are never sent to the circuit. *)
Theorem X10_predict_fhe_empty_scores w self q m c pre x post :
  has_module w self q m ->
  forward_fhe m = Some c ->
  Forall (fun x => run c (quantize_input (qm_layers m) x) <> []) pre ->
  run c (quantize_input (qm_layers m) x) = [] ->
  predict self (Arr2 (pre ++ x :: post)) true w =
    (Raise (ValueError "attempt to get argmax of an empty sequence"),
     add_calls w (concat (map (fhe_calls m) (pre ++ [x])))).
Proof.
  intros Hm Hc Hpre Hx. pose proof Hm as (a & Ha & Hq & _).
  unfold predict. mstep.
  rewrite (get_quantized_module_eq _ _ _ Ha), Hq.
  rewrite (the_quantized_module_eq _ _ _ _ Hm).
  unfold is_compiled. rewrite Hc. cbn [negb]. unfold enumerate.
  rewrite enumerate_from_app, for_each_app. mstep.
  rewrite (predict_loop self q m c pre 0 _ w Hm Hc Hpre)
    by (unfold zeros; rewrite length_replicate, length_app; lia).
  cbn [enumerate_from for_each]. mstep.
  rewrite (predict_row_empty _ self q m c)
    by (done || by apply has_module_add_calls).
  rewrite add_calls_app. do 2 f_equal.
  change (map (fhe_calls m) (pre ++ [x])) with (fhe_calls m <$> (pre ++ [x])).
  rewrite fmap_app, concat_app. done.
Qed.

(** X11: the constructor makes a new object and changes no other; the new
    estimator has no quantized module, so that [compile] and the FHE path
    of [predict] called next raise the not-calibrated [ValueError]. *)
Theorem X11_init_untrained klass module n_bits kwargs w :
  exists self w',
    init klass module n_bits kwargs w = (Ok self, w') /\
    heap w !! self = None /\
    (forall l o, heap w !! l = Some o -> heap w' !! l = Some o) /\
    Untrained w' self /\
    (forall X opts, compile self X opts w' = (Raise NotCalibratedError, w')) /\
    (forall X, predict self X true w' = (Raise NotCalibratedError, w')).
Proof.
  pose proof (fresh_lookup (heap w)) as Hfresh.
  eexists _, _. split; [reflexivity|]. cbn [heap].
  split; [done|]. split.
  { intros l o Hl. rewrite lookup_insert_ne; [done|]. intros <-. congruence. }
  assert (Hu : heap {| heap := <[fresh (dom (heap w)) :=
      OAdapter {| base_estimator_type := klass; base_module_to_compile := module;
                  n_bits_quant := n_bits; params := kwargs;
                  quantized_module_ := None |}]> (heap w); calls := calls w |}
      !! fresh (dom (heap w)) = Some (OAdapter
        {| base_estimator_type := klass; base_module_to_compile := module;
           n_bits_quant := n_bits; params := kwargs;
           quantized_module_ := None |})) by apply lookup_insert_eq.
  split; [by eexists|]. split.
  - intros X opts. unfold compile. mstep.
    by rewrite (get_quantized_module_eq _ _ _ Hu).
  - intros X. unfold predict. mstep.
    by rewrite (get_quantized_module_eq _ _ _ Hu).
Qed.

End MorePredict.

(** ** Further properties of [fit] *)

Section MoreFit.
Context `{Collaborators}.

Lemma compile_untrained w self X opts :
  Untrained w self -> compile self X opts w = (Raise NotCalibratedError, w).
Proof.
  intros (a & Ha & Hq). unfold compile. mstep.
  by rewrite (get_quantized_module_eq _ _ _ Ha), Hq.
Qed.

Lemma predict_fhe_untrained w self X :
  Untrained w self -> predict self X true w = (Raise NotCalibratedError, w).
Proof.
  intros (a & Ha & Hq). unfold predict. mstep.
  by rewrite (get_quantized_module_eq _ _ _ Ha), Hq.
Qed.

(** without a network to train, [fit] stops in the delegate *)
Lemma fit_no_net w self a X y fit_params :
  heap w !! self = Some (OAdapter a) ->
  (forall n, heap w !! base_module_to_compile a <> Some (ONet n)) ->
  fit self X y fit_params w =
    (Raise AttributeError,
     {| heap := <[self := OAdapter (with_quantized_module_ a None)]> (heap w);
        calls := calls w ++ [CallSuperFit X y fit_params] |}).
Proof.
  intros Ha Hn. unfold fit, set_quantized_module_. mstep.
  rewrite (load_adapter_eq _ _ _ Ha). unfold store, super_fit, log. mstep.
  rewrite (load_adapter_eq _ self (with_quantized_module_ a None))
    by apply lookup_insert_eq.
  unfold load_net, load. mstep. cbn [heap add_calls base_module_to_compile
    with_quantized_module_].
  destruct (decide (self = base_module_to_compile a)) as [<- | Hne].
  - by rewrite lookup_insert_eq.
  - rewrite lookup_insert_ne by done.
    destruct (heap w !! base_module_to_compile a) as [[n| | | | | |]|] eqn:E;
      try done. by destruct (Hn n).
Qed.

Lemma fit_raise_Untrained w self a X y fit_params e w' :
  heap w !! self = Some (OAdapter a) ->
  fit self X y fit_params w = (Raise e, w') ->
  Untrained w' self.
Proof.
  intros Ha Hfit. exists (with_quantized_module_ a None). split; [|done].
  destruct (heap w !! base_module_to_compile a) as [o|] eqn:Hn.
  - destruct o as [n| | | | | |];
      try (rewrite (fit_no_net _ _ a) in Hfit by (done || congruence);
           injection Hfit as _ <-; apply lookup_insert_eq).
    pose proof (adapter_ne_net _ _ _ _ _ Ha Hn) as Hne.
    rewrite (fit_failure_heap _ _ _ _ _ _ _ _ _ Ha Hn Hfit).
    unfold trained_heap. rewrite lookup_insert_ne by done.
    apply lookup_insert_eq.
  - rewrite (fit_no_net _ _ a) in Hfit by (done || congruence).
    injection Hfit as _ <-. apply lookup_insert_eq.
Qed.

(** X1: whatever the estimator was (never fit, calibrated or compiled),
    [fit] either returns [self], and the estimator is calibrated and not
    compiled, or raises, and the estimator has no quantized module: no
    failure of [fit] (training, [X[0, ::]], tracer, quantizer) leaves the
    previous quantized module in place.  Right after [fit], the FHE path of
    [predict] is therefore always refused. *)
Theorem X1_fit_outcome w self a X y fit_params :
  heap w !! self = Some (OAdapter a) ->
  match (fit self X y fit_params w).1 with
  | Ok r => r = self /\ Calibrated (fit self X y fit_params w).2 self
  | Raise _ => Untrained (fit self X y fit_params w).2 self
  end /\
  forall X', exists e,
    predict self X' true (fit self X y fit_params w).2 =
      (Raise e, (fit self X y fit_params w).2) /\
    (e = NotCalibratedError \/ e = NotCompiledError).
Proof.
  intros Ha.
  destruct (fit self X y fit_params w) as [[r | e] w'] eqn:Hfit; cbn [fst snd].
  - destruct (fit_Calibrated _ _ _ _ _ _ _ Hfit) as [-> Hcal].
    split; [done|]. intros X'. exists NotCompiledError.
    split; [by apply predict_fhe_calibrated | by right].
  - pose proof (fit_raise_Untrained _ _ _ _ _ _ _ _ Ha Hfit) as Hu.
    split; [done|]. intros X'. exists NotCalibratedError.
    split; [by apply predict_fhe_untrained | by left].
Qed.

(** X2: [fit] reads row 0 of [X] only after the training: on a
    one-dimensional or empty [X] on which the training succeeds, [fit]
    raises [IndexError] with the network trained, the tracer and the
    quantizer not called, and the estimator without quantized module. *)
Theorem X2_fit_without_row_0 w self a n X y fit_params n' :
  heap w !! self = Some (OAdapter a) ->
  heap w !! base_module_to_compile a = Some (ONet n) ->
  train (<[self := OAdapter (with_quantized_module_ a None)]> (heap w))
        (with_quantized_module_ a None) n X y fit_params = (n', None) ->
  getitem_0 X = None ->
  exists w',
    fit self X y fit_params w = (Raise IndexError, w') /\
    calls w' = calls w ++ [CallSuperFit X y fit_params] /\
    heap w' !! base_module_to_compile a = Some (ONet n') /\
    Untrained w' self.
Proof.
  intros Ha Hn Htrain Hx.
  pose proof (adapter_ne_net _ _ _ _ _ Ha Hn) as Hne.
  assert (Hself : trained_heap (heap w) self a n' !! self =
                  Some (OAdapter (with_quantized_module_ a None))).
  { unfold trained_heap. rewrite lookup_insert_ne by done.
    apply lookup_insert_eq. }
  eexists. split.
  - unfold fit. rewrite (fit_prefix_eq _ w self a n) by done.
    rewrite Htrain. cbn [fst snd].
    rewrite (bind_eq _ _ _ _ _ (load_adapter_eq
      {| heap := trained_heap (heap w) self a n'; calls := _ |} _ _ Hself)).
    rewrite Hx. reflexivity.
  - cbn [heap calls]. split; [done|]. split; [apply lookup_insert_eq|].
    by exists (with_quantized_module_ a None).
Qed.

(** X3: a successful [fit] on an estimator that has a quantized module
    does not touch that module: the new quantized module is a new object,
    and the old one, with its quantized inputs and its circuit, is in the
    store as it was, like every object other than the estimator and the
    network of the estimator (another network is left alone too). *)
Theorem X3_fit_replaces_module w self a q_old m_old X y fit_params r w' :
  heap w !! self = Some (OAdapter a) ->
  has_module w self q_old m_old ->
  fit self X y fit_params w = (Ok r, w') ->
  exists q m,
    has_module w' self q m /\
    forward_fhe m = None /\
    heap w !! q = None /\
    q <> q_old /\
    heap w' !! q_old = Some (OQModule m_old) /\
    (forall l arr, l ∈ q_inputs m_old -> heap w !! l = Some (OQArray arr) ->
       heap w' !! l = Some (OQArray arr)) /\
    (forall l o, heap w !! l = Some o -> l <> self ->
       l <> base_module_to_compile a -> heap w' !! l = Some o).
Proof.
  intros Ha (a0 & Ha0 & Hq0 & Hm0) Hfit.
  assert (a0 = a) as -> by congruence.
  destruct (fit_inv _ _ _ _ _ _ _ Hfit)
    as (a1 & n & n' & x0 & nm & layers & arrays & Ha1 & Hn & Ht & Hx & Htr & Hq).
  assert (a1 = a) as -> by congruence.
  destruct (fit_ok_state _ _ _ _ _ _ _ _ _ _ _ _ Ha Hn Ht Hx Htr Hq)
    as (q & ls & w2 & Hfit2 & _ & Hs & Hm & _ & _ & Hqnew & Hlsnew & Hkeep & Hnone).
  rewrite Hfit in Hfit2. injection Hfit2 as _ <-.
  assert (Hframe : forall l o, heap w !! l = Some o -> l <> self ->
            l <> base_module_to_compile a -> heap w' !! l = Some o).
  { intros l o Hl Hself Hnet. by apply Hkeep. }
  exists q, (calibrated_module ls layers).
  split; [by exists (with_quantized_module_ a (Some q))|].
  split; [done|]. split; [done|]. split; [intros ->; congruence|].
  split; [apply Hframe; [done | intros ->; congruence | intros ->; congruence]|].
  split; [|done].
  intros l arr _ Hl.
  apply Hframe; [done | intros ->; congruence | intros ->; congruence].
Qed.

End MoreFit.

(** ** Further properties of [compile] and [fit_benchmark] *)

Section MoreCompile.
Context `{Collaborators}.

(** X5: when the compiler raises, [compile] raises the same exception and
    every object of the store is as it was, the quantized module with or
    without its earlier circuit among them: a calibrated estimator stays
    calibrated and a compiled estimator stays compiled with the circuit it
    had. *)
Theorem X5_compile_failure w self q m q0 arr X opts e :
  has_module w self q m ->
  q_inputs m !! 0 = Some q0 ->
  heap w !! q0 = Some (OQArray arr) ->
  compiler (qm_layers m) (refreshed arr X) opts = inl e ->
  exists w',
    compile self X opts w = (Raise (Propagated e), w') /\
    (forall l o, heap w !! l = Some o -> heap w' !! l = Some o) /\
    has_module w' self q m /\
    (Calibrated w self -> Calibrated w' self) /\
    (Compiled w self -> Compiled w' self).
Proof.
  intros Hm Hq0 Harr Hcomp.
  pose proof (compile_eq w self q m q0 arr X opts Hm Hq0 Harr) as Heq.
  cbv zeta in Heq. rewrite Hcomp in Heq.
  pose proof (fresh_lookup (heap w)) as Hfresh.
  eexists. split; [exact Heq|]. cbn [heap].
  assert (Hkeep : forall l o, heap w !! l = Some o ->
    <[fresh (dom (heap w)) := OQArray (refreshed arr X)]> (heap w) !! l = Some o).
  { intros l o Hl. rewrite lookup_insert_ne; [done|]. intros <-. congruence. }
  assert (Hhas : forall q' m', has_module w self q' m' ->
    has_module {| heap := <[fresh (dom (heap w)) := OQArray (refreshed arr X)]> (heap w);
                  calls := calls w ++ [CallUpdateValues (fresh (dom (heap w))) X;
                                       CallModuleCompile q (fresh (dom (heap w))) opts] |}
               self q' m').
  { intros q' m' (a & Ha & Hq & Hqm). exists a. cbn [heap]. auto. }
  split; [done|]. split; [by apply Hhas|]. split.
  - intros (q' & m' & Hm' & Hc). exists q', m'. auto.
  - intros (q' & m' & c & Hm' & Hc). exists q', m', c. auto.
Qed.

(** X6: [compile] works on a copy of the quantized input of the module,
    so a call leaves nothing of its data behind: after a successful
    [compile] on [X1], a call of [compile] on [X2] has the outcome it would
    have had without the first call, and when it succeeds the quantized
    module is the same. *)
Theorem X6_compile_twice w self q m X1 opts1 w1 X2 opts2 :
  has_module w self q m ->
  compile self X1 opts1 w = (Ok tt, w1) ->
  (compile self X2 opts2 w1).1 = (compile self X2 opts2 w).1 /\
  ((compile self X2 opts2 w).1 = Ok tt ->
   heap (compile self X2 opts2 w1).2 !! q = heap (compile self X2 opts2 w).2 !! q).
Proof.
  intros Hm Hc1.
  destruct (compile_ok_state _ _ _ _ _ Hc1)
    as (q' & m' & q0 & arr & c1 & copy & Hm' & Hq0 & Harr & Hcomp1 & Hcopy
        & Hheap & _ & Hm1).
  destruct Hm as (a & Ha & Hq & Hqm). pose proof Hm' as (a' & Ha' & Hq' & Hqm').
  assert (a' = a) as -> by congruence.
  assert (q' = q) as -> by congruence.
  assert (m' = m) as -> by congruence.
  assert (Harr1 : heap w1 !! q0 = Some (OQArray arr)).
  { rewrite Hheap. rewrite lookup_insert_ne by (intros ->; congruence).
    rewrite lookup_insert_ne by (intros ->; congruence). done. }
  pose proof (compile_eq w self q m q0 arr X2 opts2 Hm' Hq0 Harr) as E.
  pose proof (compile_eq w1 self q (with_forward_fhe m c1) q0 arr X2 opts2
                Hm1 Hq0 Harr1) as E1.
  cbv zeta in E, E1. cbn [qm_layers with_forward_fhe] in E1.
  rewrite E, E1.
  destruct (compiler (qm_layers m) (refreshed arr X2) opts2) as [e | c2];
    cbn [fst snd heap]; [done|].
  split; [done|]. intros _. by rewrite !lookup_insert_eq.
Qed.

(** X7: [compile] takes the first quantized input of the module,
    [q_inputs[0]]: on a module without quantized input it raises
    [IndexError] before anything is copied, quantized or compiled. *)
Theorem X7_compile_without_input w self q m X opts :
  has_module w self q m ->
  q_inputs m = [] ->
  compile self X opts w = (Raise IndexError, w).
Proof.
  intros Hm Hnil. pose proof Hm as (a & Ha & Hq & _).
  unfold compile. mstep.
  rewrite (get_quantized_module_eq _ _ _ Ha), Hq.
  rewrite (the_quantized_module_eq _ _ _ _ Hm), Hnil. done.
Qed.

(** X12: [fit_benchmark] begins with [fit]: when [fit] raises,
    [fit_benchmark] raises the same exception in the world [fit] left, no
    reference estimator is built, and the estimator has no quantized
    module. *)
Theorem X12_fit_benchmark_failure w self a X y e w' :
  heap w !! self = Some (OAdapter a) ->
  fit self X y no_fit_params w = (Raise e, w') ->
  fit_benchmark self X y w = (Raise e, w') /\
  Untrained w' self /\
  (forall l est, heap w' !! l = Some (OEstimator est) ->
                 heap w !! l = Some (OEstimator est)).
Proof.
  intros Ha Hfit. split; [|split].
  - unfold fit_benchmark. by rewrite (bind_raise _ _ _ _ _ Hfit).
  - by eapply fit_raise_Untrained.
  - intros l est Hl.
    assert (Hw' : heap w' = <[self := OAdapter (with_quantized_module_ a None)]> (heap w)
            \/ exists n', heap w' = trained_heap (heap w) self a n').
    { destruct (heap w !! base_module_to_compile a) as [o|] eqn:Hn.
      - destruct o as [n| | | | | |];
          try (rewrite (fit_no_net _ _ a) in Hfit by (done || congruence);
               injection Hfit as _ <-; by left).
        right. eexists. by eapply fit_failure_heap.
      - rewrite (fit_no_net _ _ a) in Hfit by (done || congruence).
        injection Hfit as _ <-. by left. }
    destruct Hw' as [Hw' | [n' Hw']]; rewrite Hw' in Hl.
    + destruct (decide (self = l)) as [<- | ?];
        [by rewrite lookup_insert_eq in Hl | by rewrite lookup_insert_ne in Hl].
    + unfold trained_heap in Hl.
      destruct (decide (base_module_to_compile a = l)) as [<- | ?];
        [by rewrite lookup_insert_eq in Hl|].
      rewrite lookup_insert_ne in Hl by done.
      destruct (decide (self = l)) as [<- | ?];
        [by rewrite lookup_insert_eq in Hl | by rewrite lookup_insert_ne in Hl].
Qed.

End MoreCompile.

Section MoreBenchmark.
Context `{Collaborators}.

(** X13: a successful [fit_benchmark] builds the reference estimator out
    of objects that did not exist before the call, and of the atomic
    parameter values of the estimator, which a deep copy returns as they
    are; it changes no object that existed except the estimator, whose
    attribute [quantized_module_] alone is written, and the network of the
    estimator, which is trained: the parameter values of the estimator are
    read and copied, never written, and an estimator returned by an earlier
    call is left alone, with its network. *)
Theorem X13_fit_benchmark_frame w self a X y r w1 :
  heap w !! self = Some (OAdapter a) ->
  fit self X y no_fit_params w = (Ok r, w1) ->
  (forall k l, params a !! k = Some l ->
     exists o, heap w !! l = Some o /\ copyable o) ->
  exists fp e w',
    fit_benchmark self X y w = (Ok (self, fp), w') /\
    heap w' !! fp = Some (OEstimator e) /\
    heap w !! fp = None /\
    heap w !! est_module e = None /\
    (forall l, owned_by (heap w') fp l ->
       heap w !! l = None \/
       exists k v, params a !! k = Some l /\ heap w !! l = Some (OAtom v) /\
                   heap w' !! l = Some (OAtom v)) /\
    (forall l o, heap w !! l = Some o -> l <> self ->
       l <> base_module_to_compile a -> heap w' !! l = Some o) /\
    (exists q, heap w' !! self =
                 Some (OAdapter (with_quantized_module_ a (Some q)))) /\
    (forall k l, params a !! k = Some l -> l <> base_module_to_compile a ->
       heap w' !! l = heap w !! l) /\
    (forall l e0, heap w !! l = Some (OEstimator e0) ->
       heap w' !! l = Some (OEstimator e0) /\
       forall n0, heap w !! est_module e0 = Some (ONet n0) ->
         est_module e0 <> base_module_to_compile a ->
         heap w' !! est_module e0 = Some (ONet n0)).
Proof.
  intros Ha0 Hfit Hparams.
  destruct (fit_inv _ _ _ _ _ _ _ Hfit)
    as (a' & n & n' & x0 & nm & layers & arrays & Ha & Hn & Ht & Hx & Htr & Hq).
  assert (a' = a) as -> by congruence.
  destruct (fit_ok_state _ _ _ _ _ _ _ _ _ _ _ _ Ha Hn Ht Hx Htr Hq)
    as (q & ls & w2 & Hfit2 & _ & Hs1 & Hm1 & _ & Hnet1 & _ & _ & Hkeep1 & Hnone1).
  rewrite Hfit in Hfit2. injection Hfit2 as _ <-.
  set (a1 := with_quantized_module_ a (Some q)) in *.
  assert (Hparams1 : forall k l, params a1 !! k = Some l ->
            exists o, heap w1 !! l = Some o /\ copyable o).
  { intros k l Hkl. destruct (Hparams k l Hkl) as (o & Ho & Hcopy).
    destruct (decide (l = base_module_to_compile a)) as [-> | Hne];
      [by exists (ONet n')|].
    exists o. split; [|done]. apply Hkeep1; [|done..].
    intros ->. rewrite Ha in Ho. injection Ho as <-. done. }
  destruct (clone_state _ _ _ _ _ _ a1 n' Hfit Hs1 Hnet1 Hparams1)
    as (fp & e & w' & Hbench & Hfp & _ & _ & _ & Hkeep2 & Hfpnew
        & Hmcnew & _ & _ & _ & Hcopies).
  assert (Hframe : forall l o, heap w !! l = Some o -> l <> self ->
            l <> base_module_to_compile a -> heap w' !! l = Some o).
  { intros l o Hl Hself Hnet. by apply Hkeep2, Hkeep1. }
  assert (Hsame : forall l, is_Some (heap w !! l) -> l <> self ->
            l <> base_module_to_compile a -> heap w' !! l = heap w !! l).
  { intros l [o Hl] Hself Hnet. rewrite Hl. by apply Hframe. }
  exists fp, e, w'. split; [done|]. split; [done|].
  split; [by apply Hnone1|]. split; [by apply Hnone1|].
  split; [|split; [done|split; [|split]]].
  - intros l [-> | (e' & He' & Hl)]; [left; by apply Hnone1|].
    rewrite Hfp in He'. injection He' as <-.
    destruct Hl as [-> | [k Hk]]; [left; by apply Hnone1|].
    destruct (Hcopies k l Hk) as (l0 & o & Hl0 & Ho & Hc & _ & Hkind).
    destruct (is_atom o) eqn:Hatom; [|left; by apply Hnone1].
    subst l0. destruct o as [| | | | | |v]; try discriminate.
    right. exists k, v. split; [done|]. split; [|done].
    destruct (Hparams k l Hl0) as (o0 & Ho0 & Hcopy0).
    assert (l <> self) by (intros ->; rewrite Ha in Ho0; by injection Ho0 as <-).
    assert (l <> base_module_to_compile a) by (intros ->; congruence).
    rewrite <- Ho. symmetry. rewrite Ho0. by apply Hkeep1.
  - exists q. by apply Hkeep2.
  - intros k l Hkl Hnet. destruct (Hparams k l Hkl) as (o & Ho & Hcopy).
    apply Hsame; [by exists o | | done].
    intros ->. rewrite Ha in Ho. by injection Ho as <-.
  - intros l e0 Hl.
    assert (l <> self) by (intros ->; congruence).
    assert (l <> base_module_to_compile a) by (intros ->; congruence).
    split; [by apply Hframe|]. intros n0 Hn0 Hnet.
    apply Hframe; [done | | done]. intros Heq. congruence.
Qed.

(** X14: the three steps in sequence.  When the training, the tracer and
    the quantizer succeed on a batch [X] with a row 0, the quantizer
    returns at least one quantized input, and the compiler accepts that
    input refreshed with [Xc] under the parameters it got from [fit], then
    [fit], [compile] and the FHE path of [predict] succeed one after the
    other, and the label of each row is the arg-max of the circuit on the
    row quantized with the layers the quantizer returned. *)
Theorem X14_fit_compile_predict
    w self a n X y fit_params n' x0 rest nm layers arr0 arrs Xc opts c rows :
  heap w !! self = Some (OAdapter a) ->
  heap w !! base_module_to_compile a = Some (ONet n) ->
  X = Arr2 (x0 :: rest) ->
  train (<[self := OAdapter (with_quantized_module_ a None)]> (heap w))
        (with_quantized_module_ a None) n X y fit_params = (n', None) ->
  trace n' x0 = inr nm ->
  quantize (n_bits_quant a) nm true X = inr (layers, arr0 :: arrs) ->
  compiler layers (refreshed arr0 Xc) opts = inr c ->
  Forall (fun x => run c (quantize_input layers x) <> []) rows ->
  exists w1 w2 w3,
    fit self X y fit_params w = (Ok self, w1) /\
    compile self Xc opts w1 = (Ok tt, w2) /\
    Compiled w2 self /\
    predict self (Arr2 rows) true w2 =
      (Ok (FheLabels
             (map (fun x => int32 (Z.of_nat (default 0
                     (argmax (run c (quantize_input layers x)))))) rows)),
       w3).
Proof.
  intros Ha Hn -> Ht Htr Hq Hcomp Hrows.
  destruct (fit_ok_state _ _ _ _ _ _ _ _ x0 _ _ _ Ha Hn Ht eq_refl Htr Hq)
    as (q & ls & w1 & Hfit & _ & Hs1 & Hm1 & Harrs & _).
  apply Forall2_cons_inv_r in Harrs as (l0 & ls' & Harr0 & _ & ->).
  set (m := calibrated_module (l0 :: ls') layers) in *.
  assert (Hhas1 : has_module w1 self q m)
    by by exists (with_quantized_module_ a (Some q)).
  pose proof (compile_eq w1 self q m l0 arr0 Xc opts Hhas1 eq_refl Harr0) as Hc.
  cbv zeta in Hc. cbn [qm_layers m calibrated_module] in Hc.
  rewrite Hcomp in Hc.
  pose proof (fresh_lookup (heap w1)) as Hfresh.
  set (copy := fresh (dom (heap w1))) in *.
  assert (Hhas2 : has_module
    {| heap := <[q := OQModule (with_forward_fhe m c)]>
                 (<[copy := OQArray (refreshed arr0 Xc)]> (heap w1));
       calls := calls w1 ++ [CallUpdateValues copy Xc;
                             CallModuleCompile q copy opts] |}
    self q (with_forward_fhe m c)).
  { exists (with_quantized_module_ a (Some q)). cbn [heap].
    split; [|split; [done | apply lookup_insert_eq]].
    rewrite lookup_insert_ne by (intros ->; congruence).
    rewrite lookup_insert_ne by (intros ->; congruence). done. }
  eexists w1, _, _. split; [exact Hfit|]. split; [exact Hc|].
  split; [by exists q, (with_forward_fhe m c), c|].
  rewrite (predict_fhe_eq _ self q (with_forward_fhe m c) c (Arr2 rows)
             Hhas2 eq_refl Hrows).
  reflexivity.
Qed.

End MoreBenchmark.

(** ** The further properties on the small instances *)

Section MoreWitnesses.
#[local] Existing Instance Toy.T.

Section Plain.
#[local] Existing Instance Toy.C.

Lemma toy_has_module_compiled :
  has_module Toy.w_compiled Toy.self 5%positive Toy.m_compiled.
Proof.
  eexists. split; [vm_compute; reflexivity|]. split; vm_compute; reflexivity.
Qed.

Lemma X1_fit_outcome_witness :
  Calibrated (fit Toy.self Toy.X_train Toy.y_train tt Toy.w_compiled).2 Toy.self /\
  Untrained (fit Toy.self Toy.X_train [] tt Toy.w_compiled).2 Toy.self.
Proof.
  assert (Ha : heap Toy.w_compiled !! Toy.self =
               Some (OAdapter (with_quantized_module_ Toy.a_untrained
                                 (Some 5%positive))))
    by (vm_compute; reflexivity).
  split.
  - pose proof (X1_fit_outcome Toy.w_compiled Toy.self _ Toy.X_train
                  Toy.y_train tt Ha) as [Hout _].
    replace (fit Toy.self Toy.X_train Toy.y_train tt Toy.w_compiled).1
      with (Ok (A := loc) Toy.self) in Hout by (vm_compute; reflexivity).
    apply Hout.
  - pose proof (X1_fit_outcome Toy.w_compiled Toy.self _ Toy.X_train
                  [] tt Ha) as [Hout _].
    replace (fit Toy.self Toy.X_train [] tt Toy.w_compiled).1
      with (Raise (H := Toy.T) (A := loc) (Propagated (H := Toy.T) "no labels")) in Hout
      by (vm_compute; reflexivity).
    apply Hout.
Defined.

Lemma X2_fit_without_row_0_witness :
  exists w',
    fit Toy.self (Arr1 (H := Toy.T) [1; 2]%Z) Toy.y_train tt Toy.w_untrained =
      (Raise IndexError, w') /\
    calls w' = calls Toy.w_untrained ++
      [CallSuperFit (Arr1 (H := Toy.T) [1; 2]%Z) Toy.y_train tt] /\
    heap w' !! 1%positive = Some (ONet (H := Toy.T) 6%Z) /\
    Untrained w' Toy.self.
Proof.
  eapply (X2_fit_without_row_0 Toy.w_untrained Toy.self Toy.a_untrained 5%Z);
    vm_compute; reflexivity.
Defined.

Lemma X3_fit_replaces_module_witness :
  exists q m,
    has_module Toy.w_refit Toy.self q m /\
    forward_fhe m = None /\
    q <> 5%positive /\
    heap Toy.w_refit !! 5%positive = Some (OQModule Toy.m_compiled) /\
    heap Toy.w_refit !! 2%positive = Some (OParam (H := Toy.T) 7%Z).
Proof.
  destruct (X3_fit_replaces_module Toy.w_compiled Toy.self
              (with_quantized_module_ Toy.a_untrained (Some 5%positive))
              5%positive Toy.m_compiled Toy.X_train Toy.y_train tt Toy.self
              Toy.w_refit ltac:(vm_compute; reflexivity)
              toy_has_module_compiled ltac:(vm_compute; reflexivity))
    as (q & m & Hm & Hc & _ & Hq & Hold & _ & Hframe).
  exists q, m. split; [exact Hm|]. split; [exact Hc|].
  split; [exact Hq|]. split; [exact Hold|].
  apply Hframe; [vm_compute; reflexivity | discriminate | discriminate].
Defined.

Lemma X6_compile_twice_witness :
  (compile Toy.self (Arr2 (H := Toy.T) [[7; 7]]%Z) Toy.opts Toy.w_compiled).1 =
    (compile Toy.self (Arr2 (H := Toy.T) [[7; 7]]%Z) Toy.opts Toy.w_calibrated).1.
Proof.
  apply (X6_compile_twice Toy.w_calibrated Toy.self 5%positive Toy.m_calibrated
           Toy.X_train Toy.opts Toy.w_compiled).
  - eexists. split; [vm_compute; reflexivity|]. split; vm_compute; reflexivity.
  - vm_compute. reflexivity.
Defined.

Lemma X8_predict_is_a_query_witness :
  heap (predict Toy.self Toy.X_train true Toy.w_compiled).2 =
    heap Toy.w_compiled /\
  (predict Toy.self Toy.X_train true
     (predict Toy.self Toy.X_train false Toy.w_compiled).2).1 =
    (predict Toy.self Toy.X_train true Toy.w_compiled).1.
Proof.
  destruct (X8_predict_is_a_query Toy.w_compiled Toy.self Toy.X_train true)
    as (Hheap & _ & _ & Hsame).
  split; [exact Hheap | apply Hsame].
Defined.

Lemma X9_predict_fhe_calls_witness :
  length (calls (predict Toy.self Toy.X_train true Toy.w_compiled).2) =
    length (calls Toy.w_compiled) + 2 * 3.
Proof.
  apply (X9_predict_fhe_calls Toy.w_compiled Toy.self 5%positive
           Toy.m_compiled 6%Z [[1; 2]; [4; 3]; [0; 0]]%Z
           toy_has_module_compiled eq_refl).
  repeat constructor; vm_compute; discriminate.
Defined.

Lemma X10_predict_fhe_empty_scores_witness :
  predict Toy.self (Arr2 (H := Toy.T) ([[1; 2]] ++ [] :: [[4; 3]])%Z) true
    Toy.w_compiled =
    (Raise (ValueError "attempt to get argmax of an empty sequence"),
     add_calls Toy.w_compiled
       (concat (map (fhe_calls Toy.m_compiled) ([[1; 2]] ++ [[]])%Z))).
Proof.
  apply (X10_predict_fhe_empty_scores Toy.w_compiled Toy.self 5%positive
           Toy.m_compiled 6%Z [[1; 2]]%Z []%Z [[4; 3]]%Z
           toy_has_module_compiled eq_refl).
  - repeat constructor; vm_compute; discriminate.
  - reflexivity.
Defined.

Lemma X11_init_untrained_witness :
  exists self w',
    init "NeuralNetClassifier" 1%positive 3
         {[ "module" := 1%positive; "lr" := 2%positive ]} Toy.w_empty =
      (Ok self, w') /\
    Untrained w' self /\
    (forall X, predict self X true w' = (Raise NotCalibratedError, w')).
Proof.
  destruct (X11_init_untrained "NeuralNetClassifier" 1%positive 3
              {[ "module" := 1%positive; "lr" := 2%positive ]} Toy.w_empty)
    as (self & w' & Hinit & _ & _ & Hu & _ & Hp).
  exists self, w'. split; [exact Hinit|]. split; [exact Hu | exact Hp].
Defined.

Lemma X12_fit_benchmark_failure_witness :
  exists w',
    fit_benchmark Toy.self Toy.X_train [] Toy.w_compiled =
      (Raise (Propagated (H := Toy.T) "no labels"), w') /\
    Untrained w' Toy.self.
Proof.
  exists (fit Toy.self Toy.X_train [] tt Toy.w_compiled).2.
  destruct (X12_fit_benchmark_failure Toy.w_compiled Toy.self
              (with_quantized_module_ Toy.a_untrained (Some 5%positive))
              Toy.X_train [] (Propagated (H := Toy.T) "no labels")
              (fit Toy.self Toy.X_train [] tt Toy.w_compiled).2)
    as (Hb & Hu & _); try (vm_compute; reflexivity).
  split; [exact Hb | exact Hu].
Defined.

Lemma X13_fit_benchmark_frame_witness :
  exists fp e w',
    fit_benchmark Toy.self Toy.X_train Toy.y_train ToyAtoms.w_untrained =
      (Ok (Toy.self, fp), w') /\
    heap w' !! fp = Some (OEstimator e) /\
    (forall l, owned_by (heap w') fp l ->
       heap ToyAtoms.w_untrained !! l = None \/
       exists k v, params ToyAtoms.a_untrained !! k = Some l /\
                   heap ToyAtoms.w_untrained !! l = Some (OAtom v) /\
                   heap w' !! l = Some (OAtom v)) /\
    heap w' !! 2%positive = Some (OAtom (H := Toy.T) 7%Z) /\
    heap w' !! 4%positive = Some (OParam (H := Toy.T) 9%Z).
Proof.
  assert (Hparams : forall k l, params ToyAtoms.a_untrained !! k = Some l ->
            exists o, heap ToyAtoms.w_untrained !! l = Some o /\ copyable o).
  { intros k l Hkl. cbn in Hkl.
    apply lookup_insert_Some in Hkl as [[_ <-] | [_ Hkl]].
    { exists (ONet (H := Toy.T) 5%Z). split; [vm_compute; reflexivity | exact I]. }
    apply lookup_insert_Some in Hkl as [[_ <-] | [_ Hkl]].
    { exists (OAtom (H := Toy.T) 7%Z). split; [vm_compute; reflexivity | exact I]. }
    apply lookup_singleton_Some in Hkl as [_ <-].
    exists (OParam (H := Toy.T) 9%Z). split; [vm_compute; reflexivity | exact I]. }
  destruct (X13_fit_benchmark_frame ToyAtoms.w_untrained Toy.self
              ToyAtoms.a_untrained Toy.X_train Toy.y_train Toy.self
              (snd (fit Toy.self Toy.X_train Toy.y_train tt ToyAtoms.w_untrained))
              ltac:(vm_compute; reflexivity) ltac:(vm_compute; reflexivity)
              Hparams)
    as (fp & e & w' & Hb & Hfp & _ & _ & Hown & Hkeep & _).
  exists fp, e, w'. split; [exact Hb|]. split; [exact Hfp|].
  split; [exact Hown|]. split.
  - apply Hkeep; [vm_compute; reflexivity | discriminate | discriminate].
  - apply Hkeep; [vm_compute; reflexivity | discriminate | discriminate].
Defined.

Lemma X14_fit_compile_predict_witness :
  exists w1 w2 w3,
    fit Toy.self Toy.X_train Toy.y_train tt Toy.w_untrained = (Ok Toy.self, w1) /\
    compile Toy.self Toy.X_train Toy.opts w1 = (Ok tt, w2) /\
    Compiled w2 Toy.self /\
    predict Toy.self (Arr2 (H := Toy.T) [[3; 9; 2]; [5; 5; 1]]%Z) true w2 =
      (Ok (FheLabels [1; 0]%Z), w3).
Proof.
  assert (Ha : heap Toy.w_untrained !! Toy.self = Some (OAdapter Toy.a_untrained))
    by (vm_compute; reflexivity).
  assert (Hn : heap Toy.w_untrained !! base_module_to_compile Toy.a_untrained
               = Some (ONet (H := Toy.T) 5%Z)) by (vm_compute; reflexivity).
  assert (Hrows : Forall (fun x : list Z =>
            run 6%Z (quantize_input 6%Z x) <> [])
            [[3; 9; 2]; [5; 5; 1]]%Z).
  { repeat constructor; vm_compute; discriminate. }
  pose proof (X14_fit_compile_predict Toy.w_untrained Toy.self Toy.a_untrained 5%Z
              Toy.X_train Toy.y_train tt 6%Z [1; 2]%Z [[4; 3]; [0; 0]]%Z 6%Z 6%Z
              Toy.arr_calibrated [] Toy.X_train Toy.opts 6%Z
              [[3; 9; 2]; [5; 5; 1]]%Z Ha Hn eq_refl eq_refl eq_refl eq_refl
              eq_refl Hrows) as Hw.
  exact Hw.
Defined.
End Plain.

Section Strict.
#[local] Existing Instance ToyStrict.C.

Lemma X5_compile_failure_witness :
  exists w',
    compile Toy.self (Arr1 (H := Toy.T) [1; 2]%Z) Toy.opts ToyStrict.w_compiled =
      (Raise (Propagated (H := Toy.T) "expected a batch"), w') /\
    has_module w' Toy.self 5%positive Toy.m_compiled /\
    Compiled w' Toy.self.
Proof.
  assert (Hm : has_module ToyStrict.w_compiled Toy.self 5%positive Toy.m_compiled).
  { eexists. split; [vm_compute; reflexivity|]. split; vm_compute; reflexivity. }
  destruct (X5_compile_failure ToyStrict.w_compiled Toy.self 5%positive
              Toy.m_compiled 4%positive Toy.arr_calibrated
              (Arr1 (H := Toy.T) [1; 2]%Z) Toy.opts "expected a batch" Hm)
    as (w' & Hc & _ & Hm' & _ & Hcomp); try (vm_compute; reflexivity).
  exists w'. split; [exact Hc|]. split; [exact Hm'|].
  apply Hcomp. exists 5%positive, Toy.m_compiled, 6%Z.
  split; [exact Hm | reflexivity].
Defined.

Lemma X7_compile_without_input_witness :
  compile Toy.self Toy.X_train Toy.opts ToyStrict.w_no_input =
    (Raise IndexError, ToyStrict.w_no_input).
Proof.
  apply (X7_compile_without_input ToyStrict.w_no_input Toy.self 5%positive
           ToyStrict.m_no_input); [|reflexivity].
  eexists. split; [vm_compute; reflexivity|]. split; vm_compute; reflexivity.
Defined.

End Strict.

End MoreWitnesses.
